(** * Railway geometry assembly and simplification

    A shallow embedding of the geometry stages of the OSM railway
    conversion pipeline:

    - [4_assign_coordinates_to_ways.py]   (way materialisation),
    - [7_extract_railway_relations.py]    (the relation record that stage 8 reads),
    - [8_combine_railway_polylines.py]    (route assembly),
    - [10_douglas_peucker_downsample.py]  (reprojection and simplification).

    GeoJSON dictionaries become records and finite maps, Python
    exceptions become an explicit error result, and the calls into the
    third-party geometry libraries ([shapely.ops.linemerge],
    [LineString.simplify], [pyproj.Transformer.transform]) become
    parameters of the functions that call them. *)

From Stdlib Require Import ZArith Lia QArith.
From stdpp Require Import gmap strings list fin_maps.

Local Close Scope Q_scope.
Local Open Scope Z_scope.

(** ** GeoJSON data *)

(** A coordinate pair [[lon, lat]] (or [[x, y]] after projection).  The
    stages modelled here only copy coordinates and compare them for
    equality, so the pair is kept on an integer grid (OSM's native
    resolution is 1e-7 degree). *)
Definition Coordinate : Type := Z * Z.

Inductive Geometry : Type :=
| Point (c : Coordinate)
| LineString (cs : list Coordinate)
| MultiLineString (ls : list (list Coordinate)).

(** [geometry["type"]] *)
Definition geom_type (g : Geometry) : string :=
  match g with
  | Point _ => "Point"
  | LineString _ => "LineString"
  | MultiLineString _ => "MultiLineString"
  end.

(** Values found in a feature's property mapping. *)
Inductive value : Type :=
| VNum (n : Z)
| VStr (s : string)
| VIds (ids : list Z)
| VCounts (cs : list (string * nat)).

Record Feature : Type := mkFeature {
  geometry : Geometry;
  properties : gmap string value
}.

(** [props.get(key, [])] for a key that holds a list of ids.  The
    pipeline writes [node_ids] and [member_ids] as arrays of integers
    (stages 2 and 7); a mapping without the key gives the default.
    Stage 2 writes the tags of a way after [node_ids], so a tag of
    that name leaves a string under the key: such a record is outside
    what this accessor describes, and [ids_are_listed] below is the
    condition that excludes it. *)
Definition get_ids (key : string) (props : gmap string value) : list Z :=
  match props !! key with
  | Some (VIds ids) => ids
  | _ => []
  end.

(** The key is absent or holds a list of ids, the two cases in which
    [get_ids] is what the program reads. *)
Definition ids_are_listed (key : string) (props : gmap string value)
    : bool :=
  match props !! key with
  | None | Some (VIds _) => true
  | Some _ => false
  end.

(** Python exceptions. *)
Inductive exc (A : Type) : Type :=
| Ok (a : A)
| Raise (e : string).
Arguments Ok {A} a.
Arguments Raise {A} e.

Definition exc_bind {A B} (m : exc A) (k : A -> exc B) : exc B :=
  match m with
  | Ok a => k a
  | Raise e => Raise e
  end.

Notation "x <-! m ; k" := (exc_bind m (fun x => k))
  (at level 100, m at next level, right associativity).

(** [for x in xs: ...] over a body that may raise. *)
Fixpoint exc_map {A B} (f : A -> exc B) (xs : list A) : exc (list B) :=
  match xs with
  | [] => Ok []
  | x :: xs' =>
      y <-! f x;
      ys <-! exc_map f xs';
      Ok (y :: ys)
  end.

(** ** Stage 4: assigning coordinates to ways *)

Module Materialize.

(** The inner loop of [update_way_coordinates]: the coordinates of the
    node ids found in [node_coords], and the ids that were not. *)
Definition collect_step (node_coords : gmap Z Coordinate)
    (st : list Coordinate * gset Z) (node_id : Z) : list Coordinate * gset Z :=
  match node_coords !! node_id with
  | Some c => (st.1 ++ [c], st.2)
  | None => (st.1, {[node_id]} ∪ st.2)
  end.

Definition collect (node_coords : gmap Z Coordinate) (node_ids : list Z)
    (missing_nodes : gset Z) : list Coordinate * gset Z :=
  foldl (collect_step node_coords) ([], missing_nodes) node_ids.

(** The body of the loop over features. *)
Definition update_feature (node_coords : gmap Z Coordinate)
    (feature : Feature) (missing_nodes : gset Z) : Feature * gset Z :=
  let node_ids := get_ids "node_ids" (properties feature) in
  match node_ids with
  | [] => (feature, missing_nodes)
  | _ =>
      let '(way_coordinates, missing_nodes) :=
        collect node_coords node_ids missing_nodes in
      match way_coordinates with
      | [] => (feature, missing_nodes)
      | [c] => (mkFeature (Point c) (properties feature), missing_nodes)
      | _ => (mkFeature (LineString way_coordinates) (properties feature),
              missing_nodes)
      end
  end.

(** [update_way_coordinates], from the decoded features to the
    features written out and the number of missing node ids. *)
Definition update_way_coordinates (features : list Feature)
    (node_coords : gmap Z Coordinate) : list Feature * nat :=
  let '(updated_features, missing_nodes) :=
    foldl (fun st feature =>
             let '(f', miss') := update_feature node_coords feature st.2 in
             (st.1 ++ [f'], miss'))
          ([], ∅) features in
  (updated_features, size missing_nodes).

(** [materialize]: what stage 4 does to one way. *)
Definition materialize (node_coords : gmap Z Coordinate) (feature : Feature)
    : Feature :=
  (update_feature node_coords feature ∅).1.

(** The node ids of a way that the resolver knows, in their order. *)
Definition resolved_ids (node_coords : gmap Z Coordinate) (node_ids : list Z)
    : list Z :=
  filter (fun node_id => is_Some (node_coords !! node_id)) node_ids.

End Materialize.

(** ** Stage 7: the relation record *)

Module Relations.

(** [member.type] as the reader yields it. *)
Inductive MemberType : Type := node | way | relation.

Definition type_code (t : MemberType) : string :=
  match t with
  | node => "n"
  | way => "w"
  | relation => "r"
  end.

Record Member : Type := mkMember {
  m_type : MemberType;
  m_ref : Z;
  m_role : string
}.

(** [counts[key] += 1] on a [defaultdict(int)]. *)
Fixpoint bump (key : string) (counts : list (string * nat))
    : list (string * nat) :=
  match counts with
  | [] => [(key, 1%nat)]
  | (k, n) :: counts' =>
      if decide (k = key) then (k, S n) :: counts'
      else (k, n) :: bump key counts'
  end.

(** [_create_feature_properties]: the three fixed keys, then every
    tag, then the member summary.  Only the ids of the members are
    kept per member; types and roles are stored as tallies. *)
Definition create_feature_properties (osm_id : Z) (osm_type : string)
    (tags : list (string * string)) (members : list Member)
    : gmap string value :=
  let properties : gmap string value :=
    <["member_count" := VNum (Z.of_nat (length members))]>
      (<["osm_type" := VStr osm_type]>
         (<["osm_id" := VNum osm_id]> ∅)) in
  let properties :=
    foldl (fun props tag => <[tag.1 := VStr tag.2]> props) properties tags in
  let member_types :=
    foldl (fun c m => bump (type_code (m_type m)) c) [] members in
  let member_roles :=
    foldl (fun c m => bump (m_role m) c) [] members in
  <["member_ids" := VIds (m_ref <$> members)]>
    (<["member_roles" := VCounts member_roles]>
       (<["member_types" := VCounts member_types]> properties)).

(** The feature [relation] appends for a railway relation: a
    placeholder point and the properties. *)
Definition relation_feature (osm_id : Z) (tags : list (string * string))
    (members : list Member) : Feature :=
  mkFeature (Point (0, 0))
            (create_feature_properties osm_id "relation" tags members).

End Relations.

(** ** Stage 8: combining the polylines of a relation *)

Module Combine.

(** What [linemerge(line_strings)] can do: return a geometry whose
    [geom_type] is [LineString], [MultiLineString] or something else,
    or raise. *)
Inductive MergeOutcome : Type :=
| MergedLine (cs : list Coordinate)
| MergedMulti (ls : list (list Coordinate))
| MergedOther
| MergeRaised.

(** The test applied to one member id: it is a key of the lookup, its
    geometry is a [LineString], and that has at least two points. *)
Definition member_line (way_lookup : gmap Z Feature) (member_id : Z)
    : option (list Coordinate) :=
  match way_lookup !! member_id with
  | Some way_data =>
      match geometry way_data with
      | LineString coords =>
          if bool_decide (2 <= length coords)%nat then Some coords else None
      | _ => None
      end
  | None => None
  end.

(** The list [line_strings] built by the first loop. *)
Definition collect_line_strings (way_lookup : gmap Z Feature)
    (member_ids : list Z) : list (list Coordinate) :=
  omap (member_line way_lookup) member_ids.

(** The fallback of both failure branches. *)
Definition fallback (line_strings : list (list Coordinate)) : Geometry :=
  MultiLineString line_strings.

Section WithLinemerge.

Variable linemerge : list (list Coordinate) -> MergeOutcome.

(** [combine_polylines_for_relation].  The handler of the [except]
    branch formats [relation['properties']['osm_id']] into its
    warning before it returns, which raises [KeyError] when the
    key is missing. *)
Definition combine_polylines_for_relation (relation : Feature)
    (way_lookup : gmap Z Feature) : exc (option Geometry) :=
  let member_ids := get_ids "member_ids" (properties relation) in
  match member_ids with
  | [] => Ok None
  | _ =>
      let line_strings := collect_line_strings way_lookup member_ids in
      match line_strings with
      | [] => Ok None
      | _ =>
          match linemerge line_strings with
          | MergedLine cs => Ok (Some (LineString cs))
          | MergedMulti ls => Ok (Some (MultiLineString ls))
          | MergedOther => Ok (Some (fallback line_strings))
          | MergeRaised =>
              match properties relation !! "osm_id" with
              | Some _ => Ok (Some (fallback line_strings))
              | None => Raise "KeyError"
              end
          end
      end
  end.

(** The ids a relation adds to [used_way_ids]. *)
Definition mark_used (way_lookup : gmap Z Feature) (member_ids : list Z)
    (used_way_ids : gset Z) : gset Z :=
  foldl (fun used member_id =>
           if decide (is_Some (way_lookup !! member_id))
           then {[member_id]} ∪ used else used)
        used_way_ids member_ids.

(** The properties of a combined feature. *)
Definition combined_properties (relation : Feature)
    (combined_geometry : Geometry) : gmap string value :=
  let member_ids := get_ids "member_ids" (properties relation) in
  <["source" := VStr "relation"]>
    (<["geometry_type" := VStr (geom_type combined_geometry)]>
       (<["combined_way_count" := VNum (Z.of_nat (length member_ids))]>
          (properties relation))).

(** One turn of the loop of [process_railway_relations]. *)
Definition relation_step (way_lookup : gmap Z Feature)
    (st : list Feature * gset Z) (relation : Feature)
    : exc (list Feature * gset Z) :=
  combined_geometry <-! combine_polylines_for_relation relation way_lookup;
  match combined_geometry with
  | Some g =>
      let member_ids := get_ids "member_ids" (properties relation) in
      Ok (st.1 ++ [mkFeature g (combined_properties relation g)],
          mark_used way_lookup member_ids st.2)
  | None => Ok st
  end.

Fixpoint relations_loop (way_lookup : gmap Z Feature)
    (st : list Feature * gset Z) (relations : list Feature)
    : exc (list Feature * gset Z) :=
  match relations with
  | [] => Ok st
  | relation :: relations' =>
      st' <-! relation_step way_lookup st relation;
      relations_loop way_lookup st' relations'
  end.

(** [process_railway_relations]: the combined features and the set
    of used way ids. *)
Definition process_railway_relations (relations : list Feature)
    (way_lookup : gmap Z Feature) : exc (list Feature * gset Z) :=
  relations_loop way_lookup ([], ∅) relations.

End WithLinemerge.

(** The properties of a standalone feature. *)
Definition standalone_properties (way_data : Feature) : gmap string value :=
  <["combined_way_count" := VNum 1]>
    (<["geometry_type" := VStr "LineString"]>
       (<["source" := VStr "standalone_way"]> (properties way_data))).

(** The body of the loop of [process_standalone_ways]: the feature a
    way contributes, if any. *)
Definition standalone_feature (used_way_ids : gset Z)
    (item : Z * Feature) : option Feature :=
  let '(osm_id, way_data) := item in
  if decide (osm_id ∈ used_way_ids) then None
  else
    match geometry way_data with
    | LineString coords =>
        if bool_decide (2 <= length coords)%nat
        then Some (mkFeature (geometry way_data)
                             (standalone_properties way_data))
        else None
    | _ => None
    end.

(** [process_standalone_ways].  The lookup is iterated as a list of
    its items; the order of that list is the map's, not Python's
    insertion order. *)
Definition process_standalone_ways (way_lookup : gmap Z Feature)
    (used_way_ids : gset Z) : list Feature :=
  omap (standalone_feature used_way_ids) (map_to_list way_lookup).

End Combine.

(** ** The line merge of the route assembler *)

Module Linemerge.

(** A way's point sequence, used as an edge between its first and its
    last point. *)
Definition is_end (p : Coordinate) (e : list Coordinate) : Prop :=
  head e = Some p \/ last e = Some p.

Global Instance is_end_dec p e : Decision (is_end p e).
Proof. unfold is_end. apply _. Defined.

(** Modelled from the spec: the matching step of the walk of section
    4.3, step 2, which is inside [shapely.ops.linemerge] and not part
    of the sources.  The first unused edge with an endpoint at [p],
    turned so that it starts at [p], and the edges left over. *)
Fixpoint take_match (p : Coordinate) (es : list (list Coordinate))
    : option (list Coordinate * list (list Coordinate)) :=
  match es with
  | [] => None
  | e :: es' =>
      if decide (head e = Some p) then Some (e, es')
      else if decide (last e = Some p) then Some (reverse e, es')
      else
        match take_match p es' with
        | Some (m, rest) => Some (m, e :: rest)
        | None => None
        end
  end.

(** Modelled from the spec: the greedy walk of section 4.3, step 2,
    which is inside [shapely.ops.linemerge] and not part of the
    sources.  Extend the chain at its last point while an unused edge
    matches there, otherwise at its first point, until neither end
    matches.  The shared point is kept once. *)
Fixpoint walk (fuel : nat) (chain : list Coordinate)
    (rest : list (list Coordinate))
    : list Coordinate * list (list Coordinate) :=
  match fuel with
  | O => (chain, rest)
  | S fuel' =>
      match last chain ≫= (fun p => take_match p rest) with
      | Some (m, rest') => walk fuel' (chain ++ tail m) rest'
      | None =>
          match head chain ≫= (fun p => take_match p rest) with
          | Some (m, rest') => walk fuel' (reverse (tail m) ++ chain) rest'
          | None => (chain, rest)
          end
      end
  end.

(** Modelled from the spec: section 4.3, step 3, which is inside
    [shapely.ops.linemerge] and not part of the sources.  Strands in
    the order they are discovered: each one starts from the first edge
    not yet used. *)
Fixpoint strands (fuel : nat) (es : list (list Coordinate))
    : list (list Coordinate) :=
  match fuel with
  | O => []
  | S fuel' =>
      match es with
      | [] => []
      | e :: rest =>
          let '(s, rest') := walk (length rest) e rest in
          s :: strands fuel' rest'
      end
  end.

(** Modelled from the spec: [shapely.ops.linemerge] is a third-party
    routine and not part of the sources; section 4.3, steps 1 to 4,
    gives the merge as a greedy walk over an undirected multigraph of
    endpoints with exact coordinate equality, extending at the first
    unused matching edge in encounter order, one [LineString] for a
    single strand and a [MultiLineString] of the strands otherwise. *)
Definition linemerge (line_strings : list (list Coordinate))
    : Combine.MergeOutcome :=
  match strands (length line_strings) line_strings with
  | [] => Combine.MergedOther
  | [s] => Combine.MergedLine s
  | ss => Combine.MergedMulti ss
  end.

(** *** Connected components under endpoint matching *)

(** Two ways touch when an endpoint of one is an endpoint of the
    other. *)
Definition touch (e1 e2 : list Coordinate) : Prop :=
  exists p, is_end p e1 /\ is_end p e2.

(** A group of ways is connected when it can be built up one way at a
    time, each new way touching one that is already there. *)
Inductive connected : list (list Coordinate) -> Prop :=
| connected_one e : connected [e]
| connected_add e g x :
    connected g -> x ∈ g -> touch e x -> connected (e :: g)
| connected_perm g g' : g ≡ₚ g' -> connected g -> connected g'.

(** [gs] splits the ways [es] into their connected components: every
    way is in one group, every group is connected, and no way of one
    group touches a way of another. *)
Definition components (es : list (list Coordinate))
    (gs : list (list (list Coordinate))) : Prop :=
  concat gs ≡ₚ es /\
  Forall connected gs /\
  forall i j g1 g2 e1 e2,
    gs !! i = Some g1 -> gs !! j = Some g2 -> i <> j ->
    e1 ∈ g1 -> e2 ∈ g2 -> ~ touch e1 e2.

(** How many of the two ends of [e] are at [p]. *)
Definition end_count (p : Coordinate) (e : list Coordinate) : nat :=
  ((if decide (head e = Some p) then 1 else 0)
   + (if decide (last e = Some p) then 1 else 0))%nat.

(** The number of way ends at [p]. *)
Definition degree (p : Coordinate) (es : list (list Coordinate)) : nat :=
  (length (filter (fun e => head e = Some p) es)
   + length (filter (fun e => last e = Some p) es))%nat.

(** No branch point: no coordinate is the end of more than two way
    ends. *)
Definition no_branch (es : list (list Coordinate)) : Prop :=
  forall p, (degree p es <= 2)%nat.

(** What the walk maintains about the ways [G] it has chained so far
    and the two ends [h] and [t] of the chain: the ways are connected,
    both ends are ends of ways of [G], and every other end of a way of
    [G] is shared by two way ends of [G]. *)
Definition walk_inv (G : list (list Coordinate)) (h t : Coordinate) : Prop :=
  connected G /\
  (1 <= degree h G)%nat /\ (1 <= degree t G)%nat /\
  forall p, (1 <= degree p G)%nat ->
    (2 <= degree p G)%nat \/ (h <> t /\ (p = h \/ p = t)).

(** The index of the first group that holds [x]. *)
Definition group_index (ws : list (list (list Coordinate)))
    (x : list Coordinate) : nat :=
  match list_find (fun w => x ∈ w) ws with
  | Some (j, _) => j
  | None => O
  end.

(** The group of [ws] in which the [i]-th group of [gs] lies, found
    through the first way of that group. *)
Definition group_image (gs ws : list (list (list Coordinate))) (i : nat)
    : nat :=
  match gs !! i with
  | Some (x :: _) => group_index ws x
  | _ => O
  end.

End Linemerge.

(** ** Stage 10: reprojection and simplification *)

Module Simplify.

Section Reproject.

(** [transformer.transform(x, y)] of the two transformers, which
    either yields the transformed pair or raises. *)
Variable to_utm : Coordinate -> exc Coordinate.
Variable to_wgs84 : Coordinate -> exc Coordinate.

Definition transform_geometry (transform : Coordinate -> exc Coordinate)
    (geometry_dict : Geometry) : exc Geometry :=
  match geometry_dict with
  | LineString coords =>
      transformed_coords <-! exc_map transform coords;
      Ok (LineString transformed_coords)
  | MultiLineString coords =>
      transformed_coords <-! exc_map (exc_map transform) coords;
      Ok (MultiLineString transformed_coords)
  | _ => Ok geometry_dict
  end.

(** [transform_coordinates] *)
Definition transform_coordinates : Geometry -> exc Geometry :=
  transform_geometry to_utm.

(** [transform_coordinates_back] *)
Definition transform_coordinates_back : Geometry -> exc Geometry :=
  transform_geometry to_wgs84.

Section WithEngine.

(** [LineString(coords).simplify(tolerance, preserve_topology=True)],
    read back through [list(simplified_line.coords)]; the empty
    list stands for an empty geometry. *)
Context {T : Type}.
Variable line_simplify : T -> list Coordinate -> list Coordinate.

(** What [simplify_geometry] does to one coordinate list. *)
Definition simplify_coords (tolerance_meters : T)
    (coords : list Coordinate) : list Coordinate :=
  if bool_decide (length coords < 3)%nat then coords
  else
    match line_simplify tolerance_meters coords with
    | [] => coords
    | simplified_coords => simplified_coords
    end.

(** [simplify_geometry] *)
Definition simplify_geometry (geometry_dict : Geometry)
    (tolerance_meters : T) : Geometry :=
  match geometry_dict with
  | LineString coords =>
      LineString (simplify_coords tolerance_meters coords)
  | MultiLineString coords =>
      MultiLineString (simplify_coords tolerance_meters <$> coords)
  | _ => geometry_dict
  end.

(** [process_feature] *)
Definition process_feature (feature : Feature) (tolerance_meters : T)
    : exc Feature :=
  utm_geometry <-! transform_coordinates (geometry feature);
  let simplified_utm_geometry :=
    simplify_geometry utm_geometry tolerance_meters in
  simplified_geometry <-!
    transform_coordinates_back simplified_utm_geometry;
  Ok (mkFeature simplified_geometry (properties feature)).

(** The loop of [downsample_railways] over the features read. *)
Definition downsample_railways (features : list Feature)
    (tolerance_meters : T) : exc (list Feature) :=
  exc_map (fun feature => process_feature feature tolerance_meters)
          features.

End WithEngine.

End Reproject.

(** *** Transformers that do not raise

    The four transformers are built by [Transformer.from_crs] and
    called as [transformer.transform(x, y)], without [errcheck]: the
    call returns a pair for every input, a non-finite one where the
    projection is not defined, and does not raise. *)




(** *** The simplification engine *)

(** Distances as the engine measures and compares them: [dist a b p]
    is the distance of [p] from the line through [a] and [b], and
    [leD] the comparison [<=], a total preorder. *)
Class Metric : Type := {
  D : Type;
  dist : Coordinate -> Coordinate -> Coordinate -> D;
  leD : D -> D -> bool;
  leD_total : forall x y, leD x y = true \/ leD y x = true;
  leD_trans : forall x y z, leD x y = true -> leD y z = true -> leD x z = true
}.

Section DouglasPeucker.

Context {M : Metric}.

(** Modelled from the spec: the search of section 4.5, which is
    inside [LineString.simplify] and not part of the sources.  The
    point of the open interval that is furthest from the line [a]-[b]
    (the first one, if several are equally far), with the points
    before it, the points after it, and its distance. *)
Fixpoint furthest (a b : Coordinate) (mid : list Coordinate)
    : option (list Coordinate * Coordinate * list Coordinate * D) :=
  match mid with
  | [] => None
  | p :: mid' =>
      match furthest a b mid' with
      | None => Some ([], p, [], dist a b p)
      | Some (l, m, r, d) =>
          if leD d (dist a b p) then Some ([], p, mid', dist a b p)
          else Some (p :: l, m, r, d)
      end
  end.

(** Modelled from the spec: the recursion of section 4.5, which is
    inside [LineString.simplify] and not part of the sources.  On the
    interval from [a] to [b] with the points [mid] in between:
    collapse to the two endpoints when the furthest point is within
    the tolerance, otherwise split there and join the two results,
    keeping the split point once. *)
Fixpoint reduce (fuel : nat) (tolerance : D) (a : Coordinate)
    (mid : list Coordinate) (b : Coordinate) : list Coordinate :=
  match furthest a b mid with
  | None => [a; b]
  | Some (l, m, r, d) =>
      if leD d tolerance then [a; b]
      else
        match fuel with
        | O => a :: mid ++ [b]
        | S fuel' =>
            reduce fuel' tolerance a l m
              ++ tail (reduce fuel' tolerance m r b)
        end
  end.

(** The interior points that [reduce] keeps between [a] and [b]. *)
Fixpoint kept (fuel : nat) (tolerance : D) (a : Coordinate)
    (mid : list Coordinate) (b : Coordinate) : list Coordinate :=
  match furthest a b mid with
  | None => []
  | Some (l, m, r, d) =>
      if leD d tolerance then []
      else
        match fuel with
        | O => mid
        | S fuel' =>
            kept fuel' tolerance a l m ++ m :: kept fuel' tolerance m r b
        end
  end.

(** Modelled from the spec: [LineString.simplify] is a third-party
    routine and not part of the sources; section 4.5 gives the
    simplifier as the classic recursive perpendicular-distance
    reduction, which returns a sequence of fewer than 3 points
    unchanged and always retains the two endpoints. *)
Definition douglas_peucker (tolerance : D) (seq : list Coordinate)
    : list Coordinate :=
  match seq with
  | a :: (_ :: _ :: _) as rest =>
      reduce (length rest) tolerance a (removelast rest) (List.last rest a)
  | _ => seq
  end.

(** [simplify]: stage 10's [simplify_geometry] over that engine. *)
Definition simplify (geometry_dict : Geometry) (tolerance : D)
    : Geometry :=
  simplify_geometry douglas_peucker geometry_dict tolerance.

End DouglasPeucker.

End Simplify.

(** ** Stage 4: the coordinate table *)

Module Resolver.

(** A node of the source stream: its id and its location, which may be
    invalid. *)
Record OsmNode : Type := mkNode {
  n_id : Z;
  n_location : option Coordinate
}.

(** [NodeCoordinateExtractor.node]: the state is the table
    [node_coords] and the counter [found_count]. *)
Definition node (required_node_ids : gset Z)
    (st : gmap Z Coordinate * nat) (n : OsmNode) : gmap Z Coordinate * nat :=
  if decide (n_id n ∈ required_node_ids) then
    match n_location n with
    | Some c => (<[n_id n := c]> st.1, S st.2)
    | None => st
    end
  else st.

(** [extractor.apply_file(pbf_file)] on a fresh extractor. *)
Definition apply_file (required_node_ids : gset Z) (nodes : list OsmNode)
    : gmap Z Coordinate * nat :=
  foldl (node required_node_ids) (∅, O) nodes.

(** [load_specific_node_coordinates] *)
Definition load_specific_node_coordinates (nodes : list OsmNode)
    (required_node_ids : gset Z) : gmap Z Coordinate :=
  (apply_file required_node_ids nodes).1.

(** [collect_all_node_ids]: a ways file that cannot be read is
    skipped ([None]); the others give their features. *)
Definition collect_all_node_ids (ways_files : list (option (list Feature)))
    : gset Z :=
  foldl (fun all_node_ids ways_file =>
           match ways_file with
           | Some features =>
               foldl (fun ids feature =>
                        list_to_set (get_ids "node_ids" (properties feature))
                        ∪ ids)
                     all_node_ids features
           | None => all_node_ids
           end)
        ∅ ways_files.

(** The three steps of [main]: collect the ids, load their
    coordinates, update every ways file that can be read.  The result
    is the updated files and the total of the missing counts. *)
Definition assign_coordinates (nodes : list OsmNode)
    (ways_files : list (option (list Feature)))
    : list (option (list Feature)) * nat :=
  let required_node_ids := collect_all_node_ids ways_files in
  let node_coords := load_specific_node_coordinates nodes required_node_ids in
  foldl (fun st ways_file =>
           match ways_file with
           | Some features =>
               let '(updated, missing_count) :=
                 Materialize.update_way_coordinates features node_coords in
               (st.1 ++ [Some updated], (st.2 + missing_count)%nat)
           | None => (st.1 ++ [None], st.2)
           end)
        ([], O) ways_files.

(** The table an unfiltered pass over the stream would build. *)
Definition all_node_coordinates (nodes : list OsmNode) : gmap Z Coordinate :=
  foldl (fun table n =>
           match n_location n with
           | Some c => <[n_id n := c]> table
           | None => table
           end)
        ∅ nodes.

(** The location of the last node of the stream that has the id
    [node_id] and a valid location. *)
Definition last_valid_location (nodes : list OsmNode) (node_id : Z)
    : option Coordinate :=
  last (omap (fun n => if decide (n_id n = node_id) then n_location n
                       else None)
             nodes).

(** Every way of every file that could be read, materialised with
    one table. *)
Definition materialize_files (node_coords : gmap Z Coordinate)
    (ways_files : list (option (list Feature)))
    : list (option (list Feature)) :=
  (fun ways_file : option (list Feature) =>
     (fun features : list Feature =>
        Materialize.materialize node_coords <$> features) <$> ways_file)
  <$> ways_files.

(** The node ids that ways refer to and the table does not have. *)
Definition unresolved_ids (node_coords : gmap Z Coordinate)
    (features : list Feature) : gset Z :=
  list_to_set
    (filter (fun node_id => node_coords !! node_id = None)
            (features ≫= fun feature =>
               get_ids "node_ids" (properties feature))).

End Resolver.

(** ** Stage 8: the way lookup and the whole pass *)

Module CombineMain.

Import Combine.

Global Instance value_eq_dec : EqDecision value.
Proof. solve_decision. Defined.

(** The key under which [create_way_lookup] stores a way.  A missing
    [osm_id] raises [KeyError]; a list or a mapping is unhashable.
    Stage 2 writes the way id, an integer; a string id would be kept
    under a string key, which the integer-keyed table here cannot
    hold, so it is marked as outside the table. *)
Definition way_key (props : gmap string value) : exc Z :=
  match props !! "osm_id" with
  | None => Raise "KeyError"
  | Some (VNum osm_id) => Ok osm_id
  | Some (VStr _) => Raise "string key"
  | Some (VIds _) | Some (VCounts _) => Raise "TypeError"
  end.

(** [create_way_lookup] *)
Fixpoint create_way_lookup_from (way_lookup : gmap Z Feature)
    (features : list Feature) : exc (gmap Z Feature) :=
  match features with
  | [] => Ok way_lookup
  | feature :: features' =>
      osm_id <-! way_key (properties feature);
      create_way_lookup_from
        (<[osm_id := mkFeature (geometry feature) (properties feature)]>
           way_lookup)
        features'
  end.

Definition create_way_lookup (features : list Feature)
    : exc (gmap Z Feature) :=
  create_way_lookup_from ∅ features.

Section WithLinemerge.

Variable linemerge : list (list Coordinate) -> MergeOutcome.

(** The feature that one relation contributes to
    [combined_features], if any. *)
Definition relation_output (way_lookup : gmap Z Feature)
    (relation : Feature) : option Feature :=
  match combine_polylines_for_relation linemerge relation way_lookup with
  | Ok (Some g) => Some (mkFeature g (combined_properties relation g))
  | _ => None
  end.

(** The body of [main] between reading the two files and writing the
    output: all the features of the output collection. *)
Definition combine_railway_polylines (relations ways : list Feature)
    : exc (list Feature) :=
  way_lookup <-! create_way_lookup ways;
  st <-! process_railway_relations linemerge relations way_lookup;
  Ok (st.1 ++ process_standalone_ways way_lookup st.2).

End WithLinemerge.

(** The three keys that stage 8 sets on every feature it writes. *)
Definition assembly_keys : list string :=
  ["combined_way_count"; "geometry_type"; "source"].

(** [f] has the properties of [input] under every other key. *)
Definition carries_properties (input f : Feature) : Prop :=
  forall key, key ∉ assembly_keys ->
    properties f !! key = properties input !! key.

End CombineMain.

(** ** Stage 3: splitting the ways file *)

Module Split.

(** [math.ceil(total_features / num_files)] for a positive
    [num_files]: the division is exact for the feature counts a file
    can hold (below 2^53). *)
Definition features_per_file (total_features num_files : nat) : nat :=
  ((total_features + num_files - 1) / num_files)%nat.

(** The loop of [split_geojson] over the indices [i], with its
    [break]: the slices [features[start_idx:end_idx]] that are
    written. *)
Fixpoint split_loop (features : list Feature) (per_file : nat)
    (indices : list nat) : list (list Feature) :=
  match indices with
  | [] => []
  | i :: indices' =>
      let total_features := length features in
      let start_idx := (i * per_file)%nat in
      let end_idx := Nat.min ((i + 1) * per_file) total_features in
      if decide (total_features <= start_idx)%nat then []
      else take (end_idx - start_idx) (drop start_idx features)
             :: split_loop features per_file indices'
  end.

(** [split_geojson]: the feature lists of the files written, in
    order.  [num_files = 0] divides by zero. *)
Definition split_geojson (features : list Feature) (num_files : nat)
    : exc (list (list Feature)) :=
  match num_files with
  | O => Raise "ZeroDivisionError"
  | _ =>
      Ok (split_loop features
            (features_per_file (length features) num_files)
            (seq 0 num_files))
  end.

End Split.

(** ** Stage 7: selecting the railway relations *)

Module RailwayFilter.

Import Relations.

Global Instance member_type_eq_dec : EqDecision MemberType.
Proof. solve_decision. Defined.

(** [pat in s] on strings. *)
Fixpoint contains (pat s : string) : bool :=
  String.prefix pat s
  || match s with
     | EmptyString => false
     | String _ s' => contains pat s'
     end.

(** [counts.get(key, 0)] on a tally. *)
Fixpoint tally (key : string) (counts : list (string * nat)) : nat :=
  match counts with
  | [] => O
  | (k, n) :: counts' => if decide (k = key) then n else tally key counts'
  end.

(** A relation of the source stream. *)
Record OsmRelation : Type := mkRelation {
  r_id : Z;
  r_tags : list (string * string);
  r_members : list Member
}.

Section WithLower.

(** [str.lower] *)
Variable lower : string -> string.

(** The test of the inner loop of [_is_railway_relation] on
    [other_tag]. *)
Definition railway_related (other_tag : string * string) : bool :=
  let other_key := lower other_tag.1 in
  let other_value := lower other_tag.2 in
  (String.eqb other_key "route" && contains "rail" other_value)
  || String.eqb other_key "railway"
  || (String.eqb other_key "public_transport" && contains "rail" other_value)
  || contains "railway" other_key
  || contains "railway" other_value
  || contains "railroad" other_key
  || contains "railroad" other_value.

(** The first test on a tag: a relation type of the list. *)
Definition is_type_tag (tag : string * string) : bool :=
  String.eqb (lower tag.1) "type"
  && bool_decide (lower tag.2
                  ∈ ["route"; "network"; "multipolygon"; "boundary"; "site"]).

(** The three later tests on a tag. *)
Definition is_direct_tag (tag : string * string) : bool :=
  let key := lower tag.1 in
  let value := lower tag.2 in
  String.eqb key "railway"
  || (String.eqb key "public_transport" && contains "rail" value)
  || (contains "railway" key || contains "railway" value
      || contains "railroad" key || contains "railroad" value
      || contains "train" key || contains "train" value).

(** The outer loop of [_is_railway_relation] over the tags that are
    left, with [tags] the whole list for the inner loop. *)
Fixpoint is_railway_loop (tags rest : list (string * string)) : bool :=
  match rest with
  | [] => false
  | tag :: rest' =>
      if is_type_tag tag && existsb railway_related tags then true
      else if is_direct_tag tag then true
      else is_railway_loop tags rest'
  end.

(** [_is_railway_relation] *)
Definition is_railway_relation (tags : list (string * string)) : bool :=
  is_railway_loop tags tags.

(** The test on a tag that only the first branch makes: a route whose
    value mentions rail. *)
Definition is_rail_route_tag (tag : string * string) : bool :=
  String.eqb (lower tag.1) "route" && contains "rail" (lower tag.2).

(** [RailwayRelationsExtractor.relation]: the state is
    [processed_count], [railway_relations_count] and
    [railway_relations]. *)
Definition relation_handler (st : nat * nat * list Feature)
    (r : OsmRelation) : nat * nat * list Feature :=
  let '(processed_count, railway_relations_count, railway_relations) := st in
  if bool_decide (0 < length (r_tags r))%nat && is_railway_relation (r_tags r)
  then (S processed_count, S railway_relations_count,
        railway_relations
          ++ [relation_feature (r_id r) (r_tags r) (r_members r)])
  else (S processed_count, railway_relations_count, railway_relations).

(** [extractor.apply_file] on a fresh extractor. *)
Definition extract_relations (relations : list OsmRelation)
    : nat * nat * list Feature :=
  foldl relation_handler (O, O, []) relations.

(** The relations of the stream that the handler keeps. *)
Definition is_kept (r : OsmRelation) : bool :=
  bool_decide (0 < length (r_tags r))%nat && is_railway_relation (r_tags r).

End WithLower.

(** The three properties that [_create_feature_properties] sets before
    the tags. *)
Definition base_properties (osm_id : Z) (osm_type : string)
    (members : list Member) : gmap string value :=
  <["member_count" := VNum (Z.of_nat (length members))]>
    (<["osm_type" := VStr osm_type]> (<["osm_id" := VNum osm_id]> ∅)).

(** The three keys of the member summary. *)
Definition summary_keys : list string :=
  ["member_ids"; "member_roles"; "member_types"].

End RailwayFilter.

(** ** The wording of the spec, and fixtures *)

Module SpecWords.

Import Relations Combine.

(** Section 4.3's input of the assembler, word for word: the member
    list filtered to way-typed entries whose way has a [LineString]
    geometry of at least two points. *)
Definition qualifying_ways (way_lookup : gmap Z Feature)
    (members : list Member) : list (list Coordinate) :=
  omap (fun m =>
          match m_type m with
          | way => member_line way_lookup (m_ref m)
          | _ => None
          end) members.

(** The lines of a geometry that stage 10 works on: the one line of a
    [LineString], the lines of a [MultiLineString]. *)
Definition lines_of (g : Geometry) : list (list Coordinate) :=
  match g with
  | LineString coords => [coords]
  | MultiLineString lines => lines
  | Point _ => []
  end.

(** The coordinates of a geometry that stage 10 projects: those of a
    [LineString] or of the lines of a [MultiLineString]. *)
Definition projected_coordinates (g : Geometry) : list Coordinate :=
  match g with
  | LineString coords => coords
  | MultiLineString lines => concat lines
  | Point _ => []
  end.

End SpecWords.

Module Fixtures.

Import Relations Simplify.

Definition way_feature (osm_id : Z) (node_ids : list Z) (g : Geometry)
    : Feature :=
  mkFeature g (<["node_ids" := VIds node_ids]>
                 (<["osm_id" := VNum osm_id]> ∅)).

(** Three ways that meet in the point [(1, 0)], and a fourth one far
    away. *)
Definition west : list Coordinate := [(0, 0); (1, 0)].
Definition east : list Coordinate := [(1, 0); (2, 0)].
Definition north : list Coordinate := [(1, 0); (1, 1)].
Definition far : list Coordinate := [(7, 7); (8, 8)].

Definition junction_lookup : gmap Z Feature :=
  <[4 := way_feature 4 [] (LineString far)]>
    (<[3 := way_feature 3 [] (LineString north)]>
       (<[2 := way_feature 2 [] (LineString east)]>
          (<[1 := way_feature 1 [] (LineString west)]> ∅))).

Definition junction_relation : Feature :=
  relation_feature 100 []
    [mkMember way 1 "forward"; mkMember way 2 "forward"; mkMember way 3 "forward"].

Definition junction_and_far_relation : Feature :=
  relation_feature 101 []
    [mkMember way 1 "forward"; mkMember way 2 "forward"; mkMember way 3 "forward";
     mkMember way 4 "forward"].

(** A relation of two connected ways and a third one far away. *)
Definition two_parts_relation : Feature :=
  relation_feature 104 []
    [mkMember way 1 "forward"; mkMember way 2 "forward";
     mkMember way 4 "forward"].

(** What the merge makes of the junction, and the feature stage 8
    emits for it. *)
Definition junction_merged : Geometry :=
  MultiLineString [[(0, 0); (1, 0); (2, 0)]; north].

Definition junction_combined : list Feature :=
  [mkFeature junction_merged
     (Combine.combined_properties junction_relation junction_merged)].

(** A relation whose only member is the node 1, a stop. *)
Definition stop_members : list Member := [mkMember node 1 "stop"].
Definition stop_relation : Feature := relation_feature 102 [] stop_members.

(** A way that resolved to a single point. *)
Definition point_lookup : gmap Z Feature :=
  {[ 9 := way_feature 9 [] (Point (3, 4)) ]}.

(** Squared distance of [p] from the line through [a] and [b] (from
    [a] itself when the two coincide), as an exact fraction. *)
Definition sq_dist_to_line (a b p : Coordinate) : Q :=
  let dx := b.1 - a.1 in
  let dy := b.2 - a.2 in
  let len2 := dx * dx + dy * dy in
  let cross := dx * (p.2 - a.2) - dy * (p.1 - a.1) in
  if decide (len2 = 0)
  then inject_Z ((p.1 - a.1) * (p.1 - a.1) + (p.2 - a.2) * (p.2 - a.2))
  else Qmake (cross * cross) (Z.to_pos len2).

(** A transformer that raises outside a bounded square, as one that
    is called with [errcheck] does, and its inverse. *)
Definition shift_east (c : Coordinate) : exc Coordinate :=
  if bool_decide (Z.abs c.1 <= 1000 /\ Z.abs c.2 <= 1000)
  then Ok (c.1 + 500000, c.2)
  else Raise "ProjError".

Definition shift_west (c : Coordinate) : exc Coordinate :=
  Ok (c.1 - 500000, c.2).

(** A line inside the square, and one that leaves it. *)
Definition inside_line : Feature :=
  way_feature 21 [] (LineString [(0, 0); (10, 0); (20, 5)]).






End Fixtures.

(** ** Fixtures for the further properties *)

Module MoreFixtures.

Import Relations Fixtures.

(** Two ways with the same id, and a way record without an id. *)
Definition first_copy : Feature := way_feature 1 [] (LineString west).
Definition second_copy : Feature := way_feature 1 [] (LineString east).
Definition nameless_way : Feature := mkFeature (Point (0, 0)) ∅.

(** The four ways of the junction lookup as a ways file. *)
Definition junction_ways : list Feature :=
  [way_feature 1 [] (LineString west); way_feature 2 [] (LineString east);
   way_feature 3 [] (LineString north); way_feature 4 [] (LineString far)].

(** The standalone feature of way 4. *)
Definition far_standalone : Feature :=
  mkFeature (LineString far)
    (Combine.standalone_properties (way_feature 4 [] (LineString far))).

(** Tags of a light rail route, in two orders. *)
Definition route_tags : list (string * string) :=
  [("type", "route"); ("route", "light_rail")].
Definition route_tags_swapped : list (string * string) :=
  [("route", "light_rail"); ("type", "route")].

(** Two ways that share the node 3, and a table that has the node 1
    only. *)
Definition shared_node_ways : list Feature :=
  [way_feature 31 [1; 2; 3] (Point (0, 0));
   way_feature 32 [3; 4] (Point (0, 0))].
Definition one_node_table : gmap Z Coordinate := {[ 1 := (10, 20) ]}.

(** Five ways for a split into two files. *)
Definition five_ways : list Feature :=
  [way_feature 1 [] (Point (0, 0)); way_feature 2 [] (Point (0, 0));
   way_feature 3 [] (Point (0, 0)); way_feature 4 [] (Point (0, 0));
   way_feature 5 [] (Point (0, 0))].

End MoreFixtures.

(** * Properties *)

(** ** Generic facts *)

Lemma exc_map_Forall2 {A B} (f : A -> exc B) xs ys :
  exc_map f xs = Ok ys -> Forall2 (fun x y => f x = Ok y) xs ys.
Proof.
  revert ys. induction xs as [|x xs IH]; intros ys; simpl.
  - intros [= <-]. constructor.
  - destruct (f x) as [y|e] eqn:Hx; simpl; [|done].
    destruct (exc_map f xs) as [ys'|e]; simpl; [|done].
    intros [= <-]. constructor; [done|]. by apply IH.
Qed.

Lemma elem_of_concat {A} (x : A) (ls : list (list A)) :
  x ∈ concat ls <-> exists l, x ∈ l /\ l ∈ ls.
Proof.
  rewrite list_elem_of_In, in_concat. split.
  - intros (l & Hl & Hx). exists l. by rewrite !list_elem_of_In.
  - intros (l & Hx & Hl). exists l. by rewrite <- !list_elem_of_In.
Qed.

Lemma exc_map_raise {A B} (f : A -> exc B) xs x e :
  x ∈ xs -> f x = Raise e -> exists e', exc_map f xs = Raise e'.
Proof.
  induction 1 as [x xs|x y xs Hin IH]; intros Hx; simpl.
  - rewrite Hx. by eexists.
  - destruct (f y) as [y'|e0]; simpl; [|by eexists].
    destruct (IH Hx) as [e' ->]. by eexists.
Qed.

(** ** Stage 4 *)

Section MaterializeFacts.

Import Materialize.

Variable node_coords : gmap Z Coordinate.

Lemma collect_omap node_ids acc missing :
  (foldl (collect_step node_coords) (acc, missing) node_ids).1
  = acc ++ omap (fun node_id => node_coords !! node_id) node_ids.
Proof.
  revert acc missing.
  induction node_ids as [|node_id node_ids IH]; intros acc missing; simpl.
  - by rewrite app_nil_r.
  - unfold collect_step at 2. simpl.
    destruct (node_coords !! node_id) as [c|]; rewrite IH; [|done].
    by rewrite <- app_assoc.
Qed.

Lemma resolved_coordinates node_ids :
  Forall2 (fun node_id c => node_coords !! node_id = Some c)
          (resolved_ids node_coords node_ids)
          (omap (fun node_id => node_coords !! node_id) node_ids).
Proof.
  unfold resolved_ids.
  induction node_ids as [|node_id node_ids IH]; simpl; [constructor|].
  rewrite filter_cons.
  destruct (node_coords !! node_id) as [c|] eqn:Hc.
  - rewrite decide_True by eauto. by constructor.
  - rewrite decide_False; [done|]. by intros [? [=]].
Qed.

Lemma update_feature_cases feature missing :
  (update_feature node_coords feature missing).1
  = match omap (fun node_id => node_coords !! node_id)
            (get_ids "node_ids" (properties feature)) with
    | [] => feature
    | [c] => mkFeature (Point c) (properties feature)
    | way_coordinates =>
        mkFeature (LineString way_coordinates) (properties feature)
    end.
Proof.
  unfold update_feature.
  destruct (get_ids "node_ids" (properties feature)) as [|i ids]; [done|].
  unfold collect.
  destruct (foldl _ _ (i :: ids)) as [wc miss] eqn:Hfold.
  pose proof (collect_omap (i :: ids) [] missing) as Hwc.
  rewrite Hfold, app_nil_l in Hwc. cbn [fst] in Hwc. rewrite Hwc.
  by destruct (omap _ (i :: ids)) as [|c [|c' cs]].
Qed.

(** The features written out are the materialised ways, one for one
    and in order. *)
Lemma update_way_coordinates_features features :
  (update_way_coordinates features node_coords).1
  = materialize node_coords <$> features.
Proof.
  unfold update_way_coordinates.
  destruct (foldl _ _ features) as [updated missing] eqn:Hfold.
  cbn [fst].
  assert (forall acc miss,
            (foldl (fun st feature =>
                      let '(f', miss') :=
                        update_feature node_coords feature st.2 in
                      (st.1 ++ [f'], miss'))
                   (acc, miss) features).1
            = acc ++ (materialize node_coords <$> features)) as Hgen.
  { clear. induction features as [|f fs IH]; intros acc miss; simpl.
    - by rewrite app_nil_r.
    - destruct (update_feature node_coords f miss) as [f' miss'] eqn:Hf.
      rewrite IH, <- app_assoc. simpl. do 2 f_equal.
      unfold materialize. rewrite update_feature_cases.
      by rewrite <- (update_feature_cases f miss), Hf. }
  specialize (Hgen [] ∅). by rewrite Hfold in Hgen.
Qed.

(** C2: [update_way_coordinates] leaves a way with no resolved node id
    as it is, turns exactly one resolved id into a [Point] at its
    coordinate, and two or more into a [LineString] over the
    coordinates of the resolved ids in the order of [node_ids]; the
    number of coordinates is the number of resolved ids. *)
Theorem materialize_resolved_subset (features : list Feature) :
  Forall2
    (fun feature updated =>
       exists way_coordinates,
         Forall2 (fun node_id c => node_coords !! node_id = Some c)
                 (resolved_ids node_coords
                    (get_ids "node_ids" (properties feature)))
                 way_coordinates /\
         length way_coordinates
         = length (resolved_ids node_coords
                     (get_ids "node_ids" (properties feature))) /\
         updated
         = match way_coordinates with
           | [] => feature
           | [c] => mkFeature (Point c) (properties feature)
           | _ => mkFeature (LineString way_coordinates)
                            (properties feature)
           end)
    features (update_way_coordinates features node_coords).1.
Proof.
  rewrite update_way_coordinates_features.
  apply Forall2_fmap_r, Forall_Forall2_diag, Forall_forall.
  intros feature _.
  set (node_ids := get_ids "node_ids" (properties feature)).
  exists (omap (fun node_id => node_coords !! node_id) node_ids).
  pose proof (resolved_coordinates node_ids) as HF.
  split; [done|]. split; [symmetry; by eapply Forall2_length|].
  unfold materialize. rewrite update_feature_cases. fold node_ids.
  by destruct (omap _ node_ids) as [|c [|c' cs]].
Qed.

End MaterializeFacts.

(** Scenario D: a way over the nodes 1, 2, 3 of which 2 is unknown
    becomes the line through the coordinates of 1 and 3. *)
Example materialize_skips_missing_node :
  Materialize.update_way_coordinates
    [Fixtures.way_feature 5 [1; 2; 3] (Point (0, 0))]
    (<[3 := (30, 31)]> (<[1 := (10, 11)]> ∅))
  = ([Fixtures.way_feature 5 [1; 2; 3] (LineString [(10, 11); (30, 31)])],
     1%nat).
Proof. vm_compute. reflexivity. Qed.

(** ** Stage 8: the wrapper around the merge *)

Section CombineFacts.

Import Relations Combine.

Variable linemerge : list (list Coordinate) -> MergeOutcome.
Variable way_lookup : gmap Z Feature.

Lemma member_line_Some member_id coords :
  member_line way_lookup member_id = Some coords <->
  exists way_data,
    way_lookup !! member_id = Some way_data /\
    geometry way_data = LineString coords /\ (2 <= length coords)%nat.
Proof.
  unfold member_line. split.
  - destruct (way_lookup !! member_id) as [wd|]; [|done].
    destruct (geometry wd) as [|cs|] eqn:Hg; try done.
    case_bool_decide; [|done]. intros [= <-]. by exists wd.
  - intros (wd & -> & -> & Hlen). by rewrite bool_decide_true.
Qed.

Lemma collect_line_strings_nil member_ids :
  collect_line_strings way_lookup member_ids = [] <->
  forall member_id, member_id ∈ member_ids ->
    member_line way_lookup member_id = None.
Proof.
  unfold collect_line_strings.
  induction member_ids as [|i ids IH]; simpl.
  - split; [|done]. intros _ i Hi. by apply elem_of_nil in Hi.
  - destruct (member_line way_lookup i) as [cs|] eqn:Hi.
    + split; [done|]. intros H. specialize (H i (list_elem_of_here _ _)).
      congruence.
    + rewrite IH. split.
      * intros H j [->|Hj]%elem_of_cons; auto.
      * intros H j Hj. apply H. by right.
Qed.

Lemma combine_None relation :
  combine_polylines_for_relation linemerge relation way_lookup = Ok None <->
  collect_line_strings way_lookup (get_ids "member_ids" (properties relation))
  = [].
Proof.
  unfold combine_polylines_for_relation.
  destruct (get_ids "member_ids" (properties relation)) as [|i ids]; [done|].
  destruct (collect_line_strings way_lookup (i :: ids)) as [|l ls]; [done|].
  split; [|done].
  destruct (linemerge (l :: ls)); try done.
  by destruct (properties relation !! "osm_id").
Qed.

Lemma mark_used_elem member_ids used member_id :
  member_id ∈ mark_used way_lookup member_ids used <->
  member_id ∈ used \/
  (member_id ∈ member_ids /\ is_Some (way_lookup !! member_id)).
Proof.
  unfold mark_used. revert used.
  induction member_ids as [|i ids IH]; intros used; simpl.
  - set_solver.
  - rewrite IH. case_decide; set_solver.
Qed.

(** What the loop of [process_railway_relations] has built when it
    completes. *)
Lemma relations_loop_spec relations st st' :
  relations_loop linemerge way_lookup st relations = Ok st' ->
  (forall f, f ∈ st'.1 <->
     f ∈ st.1 \/
     exists relation g,
       relation ∈ relations /\
       combine_polylines_for_relation linemerge relation way_lookup
       = Ok (Some g) /\
       f = mkFeature g (combined_properties relation g)) /\
  (forall member_id, member_id ∈ st'.2 <->
     member_id ∈ st.2 \/
     (is_Some (way_lookup !! member_id) /\
      exists relation g,
        relation ∈ relations /\
        combine_polylines_for_relation linemerge relation way_lookup
        = Ok (Some g) /\
        member_id ∈ get_ids "member_ids" (properties relation))) /\
  (forall relation, relation ∈ relations ->
     exists og,
       combine_polylines_for_relation linemerge relation way_lookup = Ok og).
Proof.
  revert st. induction relations as [|r rs IH]; intros st; simpl.
  - intros [= <-]. repeat split; try set_solver.
  - unfold relation_step.
    destruct (combine_polylines_for_relation linemerge r way_lookup)
      as [[g|]|e] eqn:Hr; simpl; [| |done]; intros Hloop;
      destruct (IH _ Hloop) as (Hf & Hu & Hok); repeat split.
    + intros H. apply Hf in H as [H|(r' & g' & ? & ? & ?)].
      * simpl in H. apply elem_of_app in H as [H|H]; [by left|].
        apply list_elem_of_singleton in H. right. exists r, g. set_solver.
      * right. exists r', g'. set_solver.
    + intros [H|(r' & g' & [->|Hin]%elem_of_cons & Hc & ->)]; apply Hf.
      * left. simpl. set_solver.
      * left. simpl. rewrite Hr in Hc. injection Hc as ->. set_solver.
      * right. by exists r', g'.
    + intros H. apply Hu in H as [H|(? & r' & g' & ? & ? & ?)].
      * simpl in H. apply mark_used_elem in H as [H|[H1 H2]]; [by left|].
        right. split; [done|]. exists r, g. set_solver.
      * right. split; [done|]. exists r', g'. set_solver.
    + intros [H|(Hs & r' & g' & [->|Hin]%elem_of_cons & Hc & Hm)]; apply Hu.
      * left. simpl. apply mark_used_elem. by left.
      * left. simpl. apply mark_used_elem. by right.
      * right. split; [done|]. by exists r', g'.
    + intros r' [->|Hin]%elem_of_cons; eauto.
    + intros H. apply Hf in H as [H|(r' & g' & ? & ? & ?)]; [by left|].
      right. exists r', g'. set_solver.
    + intros [H|(r' & g' & [->|Hin]%elem_of_cons & Hc & ->)]; apply Hf.
      * by left.
      * congruence.
      * right. by exists r', g'.
    + intros H. apply Hu in H as [H|(? & r' & g' & ? & ? & ?)]; [by left|].
      right. split; [done|]. exists r', g'. set_solver.
    + intros [H|(Hs & r' & g' & [->|Hin]%elem_of_cons & Hc & Hm)]; apply Hu.
      * by left.
      * congruence.
      * right. split; [done|]. by exists r', g'.
    + intros r' [->|Hin]%elem_of_cons; eauto.
Qed.

Lemma standalone_elem used f :
  f ∈ process_standalone_ways way_lookup used <->
  exists osm_id way_data coords,
    way_lookup !! osm_id = Some way_data /\
    (osm_id ∉ used) /\
    geometry way_data = LineString coords /\
    (2 <= length coords)%nat /\
    f = mkFeature (LineString coords) (standalone_properties way_data).
Proof.
  unfold process_standalone_ways. rewrite list_elem_of_omap. split.
  - intros ([osm_id wd] & Hin & Hf). apply elem_of_map_to_list in Hin.
    unfold standalone_feature in Hf. case_decide; [done|].
    destruct (geometry wd) as [|cs|] eqn:Hg; try done.
    case_bool_decide; [|done]. injection Hf as <-.
    exists osm_id, wd, cs. by rewrite Hg.
  - intros (osm_id & wd & cs & Hl & Hu & Hg & Hlen & ->).
    exists (osm_id, wd). split; [by apply elem_of_map_to_list|].
    unfold standalone_feature. rewrite decide_False by done.
    rewrite Hg. by rewrite bool_decide_true.
Qed.

End CombineFacts.

Section AssemblerClaims.

Import Relations Combine.

Lemma relation_feature_member_ids osm_id tags members :
  get_ids "member_ids" (properties (relation_feature osm_id tags members))
  = m_ref <$> members.
Proof.
  unfold get_ids, relation_feature, create_feature_properties. simpl.
  by rewrite lookup_insert_eq.
Qed.

Lemma omap_member_refs (way_lookup : gmap Z Feature)
    (members : list Member) :
  omap (member_line way_lookup) (m_ref <$> members)
  = omap (fun m => member_line way_lookup (m_ref m)) members.
Proof.
  induction members as [|m ms IH]; csimpl; [done|].
  by rewrite IH.
Qed.

(** C3: when the merge of a relation's line strings raises, or yields
    a geometry that is neither a [LineString] nor a [MultiLineString],
    [combine_polylines_for_relation] returns the [MultiLineString] of
    the qualifying ways' point sequences in member order.  The relation
    record carries its [osm_id], which the warning of the handler
    prints. *)
Theorem merge_failure_falls_back
    (linemerge : list (list Coordinate) -> MergeOutcome)
    (relation : Feature) (way_lookup : gmap Z Feature) :
  let line_strings :=
    collect_line_strings way_lookup
      (get_ids "member_ids" (properties relation)) in
  line_strings <> [] ->
  is_Some (properties relation !! "osm_id") ->
  linemerge line_strings = MergeRaised \/
  linemerge line_strings = MergedOther ->
  combine_polylines_for_relation linemerge relation way_lookup
  = Ok (Some (MultiLineString line_strings)).
Proof.
  intros line_strings Hne [v Hid] Hfail.
  unfold combine_polylines_for_relation. fold line_strings.
  destruct (get_ids "member_ids" (properties relation)) as [|i ids] eqn:Hids.
  { by subst line_strings. }
  destruct line_strings as [|l ls]; [done|].
  destruct Hfail as [-> | ->]; [|done]. by rewrite Hid.
Qed.

(** C4 (as amended): the assembler works on every entry of
    [member_ids] that is a key of the way lookup with a [LineString]
    of at least two points, whatever the type of the member, and it
    returns [None] exactly when there is no such entry. *)
Theorem combine_absent_iff_no_line
    (linemerge : list (list Coordinate) -> MergeOutcome)
    (osm_id : Z) (tags : list (string * string)) (members : list Member)
    (way_lookup : gmap Z Feature) :
  collect_line_strings way_lookup
    (get_ids "member_ids" (properties (relation_feature osm_id tags members)))
  = omap (fun m => member_line way_lookup (m_ref m)) members /\
  (combine_polylines_for_relation linemerge
     (relation_feature osm_id tags members) way_lookup = Ok None <->
   forall m, m ∈ members ->
     forall way_data coords,
       way_lookup !! m_ref m = Some way_data ->
       geometry way_data = LineString coords ->
       (length coords < 2)%nat).
Proof.
  rewrite relation_feature_member_ids. unfold collect_line_strings at 1.
  rewrite omap_member_refs. split; [done|].
  rewrite combine_None, relation_feature_member_ids, collect_line_strings_nil.
  split.
  - intros H m Hm wd cs Hwd Hg.
    destruct (decide (2 <= length cs)%nat) as [Hlen|]; [|lia].
    assert (member_line way_lookup (m_ref m) = Some cs) as Hs.
    { apply member_line_Some. by exists wd. }
    rewrite H in Hs; [done|]. by apply list_elem_of_fmap_2.
  - intros H i (m & -> & Hm)%list_elem_of_fmap.
    destruct (member_line way_lookup (m_ref m)) as [cs|] eqn:Hs; [|done].
    apply member_line_Some in Hs as (wd & Hwd & Hg & Hlen).
    specialize (H m Hm wd cs Hwd Hg). lia.
Qed.

(** C5 (as amended): once all relations are processed, the second pass
    emits exactly the ways of the lookup whose id is in no relation's
    [member_ids] and whose geometry is a [LineString] of at least two
    points, each as a feature of its own; a way whose id is in some
    relation's [member_ids] is not emitted. *)
Theorem standalone_ways_are_the_complement
    (linemerge : list (list Coordinate) -> MergeOutcome)
    (relations : list Feature) (way_lookup : gmap Z Feature)
    (combined_features : list Feature) (used_way_ids : gset Z) :
  process_railway_relations linemerge relations way_lookup
  = Ok (combined_features, used_way_ids) ->
  forall f,
    f ∈ process_standalone_ways way_lookup used_way_ids <->
    exists osm_id way_data coords,
      way_lookup !! osm_id = Some way_data /\
      (forall relation, relation ∈ relations ->
         osm_id ∉ get_ids "member_ids" (properties relation)) /\
      geometry way_data = LineString coords /\
      (2 <= length coords)%nat /\
      f = mkFeature (LineString coords) (standalone_properties way_data).
Proof.
  intros Hrun f.
  apply relations_loop_spec in Hrun as (_ & Hused & Hok). simpl in Hused.
  rewrite standalone_elem. split.
  - intros (i & wd & cs & Hwd & Hu & Hg & Hlen & ->).
    exists i, wd, cs. repeat split; try done.
    intros r Hr Hin. apply Hu, Hused. right. split; [by eexists|].
    destruct (Hok r Hr) as [[g|] Hc]; [by exists r, g|].
    apply combine_None in Hc.
    pose proof (proj1 (collect_line_strings_nil way_lookup _) Hc i Hin) as Hn.
    assert (member_line way_lookup i = Some cs) as Hs.
    { apply member_line_Some. by exists wd. }
    congruence.
  - intros (i & wd & cs & Hwd & Hno & Hg & Hlen & ->).
    exists i, wd, cs. repeat split; try done.
    intros [Hu|(_ & r & g & Hr & _ & Hin)]%Hused; [set_solver|].
    by apply (Hno r Hr).
Qed.

(** C10: every relation feature that [process_railway_relations]
    emits has [combined_way_count] equal to the length of the
    relation's whole [member_ids] list, which for a relation record is
    the number of all its members; every standalone feature has
    [combined_way_count] 1. *)
Theorem combined_way_count_is_member_count
    (linemerge : list (list Coordinate) -> MergeOutcome)
    (relations : list Feature) (way_lookup : gmap Z Feature)
    (combined_features : list Feature) (used_way_ids : gset Z) :
  process_railway_relations linemerge relations way_lookup
  = Ok (combined_features, used_way_ids) ->
  (forall f, f ∈ combined_features ->
     exists relation,
       relation ∈ relations /\
       combine_polylines_for_relation linemerge relation way_lookup
       = Ok (Some (geometry f)) /\
       properties f !! "combined_way_count"
       = Some (VNum (Z.of_nat
                       (length (get_ids "member_ids" (properties relation)))))) /\
  (forall f, f ∈ process_standalone_ways way_lookup used_way_ids ->
     properties f !! "combined_way_count" = Some (VNum 1)) /\
  (forall osm_id tags members,
     length (get_ids "member_ids"
               (properties (relation_feature osm_id tags members)))
     = length members).
Proof.
  intros Hrun.
  apply relations_loop_spec in Hrun as (Hfeat & _ & _). simpl in Hfeat.
  repeat split.
  - intros f [Hf|(r & g & Hr & Hc & ->)]%Hfeat; [by apply elem_of_nil in Hf|].
    exists r. repeat split; try done. simpl. unfold combined_properties.
    rewrite lookup_insert_ne by done. rewrite lookup_insert_ne by done.
    by rewrite lookup_insert_eq.
  - intros f (i & wd & cs & _ & _ & _ & _ & ->)%standalone_elem. simpl.
    unfold standalone_properties. by rewrite lookup_insert_eq.
  - intros. by rewrite relation_feature_member_ids, length_fmap.
Qed.

End AssemblerClaims.

Section AssemblerExamples.

Import Relations Combine Fixtures.

Lemma merge_failure_falls_back_witness :
  combine_polylines_for_relation (fun _ => MergeRaised)
    junction_relation junction_lookup
  = Ok (Some (MultiLineString [west; east; north])).
Proof.
  apply (merge_failure_falls_back (fun _ => MergeRaised)
           junction_relation junction_lookup).
  - vm_compute. done.
  - vm_compute. eauto.
  - by left.
Defined.

(** C4 (as stated) fails: the only member of the relation is a node,
    so no way-typed member qualifies, yet its id is also the id of a
    way of the lookup and the assembler returns that way's line. *)
Lemma member_type_is_not_checked :
  SpecWords.qualifying_ways junction_lookup stop_members = [] /\
  combine_polylines_for_relation Linemerge.linemerge
    stop_relation junction_lookup
  = Ok (Some (LineString west)).
Proof. split; vm_compute; reflexivity. Qed.

(** C5 (as stated) fails: with no relation at all, the way 9 is
    referenced by none, and the second pass emits nothing for it,
    because its geometry is a [Point]. *)
Lemma point_way_is_not_emitted :
  process_railway_relations Linemerge.linemerge [] point_lookup
  = Ok ([], ∅) /\
  point_lookup !! 9 = Some (way_feature 9 [] (Point (3, 4))) /\
  process_standalone_ways point_lookup ∅ = [].
Proof. repeat split; vm_compute; reflexivity. Qed.

Lemma junction_run :
  process_railway_relations Linemerge.linemerge
    [junction_relation] junction_lookup
  = Ok (junction_combined, {[1; 2; 3]}).
Proof. vm_compute. reflexivity. Qed.

Lemma standalone_ways_are_the_complement_witness :
  mkFeature (LineString far)
    (standalone_properties (way_feature 4 [] (LineString far)))
  ∈ process_standalone_ways junction_lookup {[1; 2; 3]}.
Proof.
  apply (standalone_ways_are_the_complement Linemerge.linemerge
           [junction_relation] junction_lookup junction_combined
           {[1; 2; 3]} junction_run).
  exists 4, (way_feature 4 [] (LineString far)), far.
  split; [vm_compute; reflexivity|].
  split; [|repeat split; simpl; lia].
  intros r ->%list_elem_of_singleton.
  unfold junction_relation. rewrite relation_feature_member_ids. simpl.
  intros Hin. repeat (apply elem_of_cons in Hin as [Hin|Hin]; [lia|]).
  by apply elem_of_nil in Hin.
Defined.

Lemma combined_way_count_is_member_count_witness :
  (forall f, f ∈ junction_combined ->
     exists relation,
       relation ∈ [junction_relation] /\
       combine_polylines_for_relation Linemerge.linemerge
         relation junction_lookup
       = Ok (Some (geometry f)) /\
       properties f !! "combined_way_count"
       = Some (VNum (Z.of_nat
                       (length (get_ids "member_ids" (properties relation)))))) /\
  (forall f, f ∈ process_standalone_ways junction_lookup {[1; 2; 3]} ->
     properties f !! "combined_way_count" = Some (VNum 1)) /\
  (forall osm_id tags members,
     length (get_ids "member_ids"
               (properties (relation_feature osm_id tags members)))
     = length members).
Proof.
  apply (combined_way_count_is_member_count Linemerge.linemerge
           [junction_relation] junction_lookup junction_combined).
  vm_compute. reflexivity.
Defined.

(** Scenario A: two ways that share an endpoint become one line. *)
Example two_connected_ways_merge :
  combine_polylines_for_relation Linemerge.linemerge
    (relation_feature 105 []
       [mkMember way 1 "forward"; mkMember way 2 "forward"])
    junction_lookup
  = Ok (Some (LineString [(0, 0); (1, 0); (2, 0)])).
Proof. vm_compute. reflexivity. Qed.

(** Scenario B: two ways that share no endpoint stay two sequences. *)
Example two_separate_ways_stay_apart :
  combine_polylines_for_relation Linemerge.linemerge
    (relation_feature 106 []
       [mkMember way 1 "forward"; mkMember way 4 "forward"])
    junction_lookup
  = Ok (Some (MultiLineString [west; far])).
Proof. vm_compute. reflexivity. Qed.

(** A relation with a node member and a way member that is not in the
    lookup counts both. *)
Example combined_way_count_counts_all_members :
  let r := relation_feature 103 []
             [mkMember way 1 "forward"; mkMember node 77 "stop";
              mkMember way 55 "forward"] in
  combine_polylines_for_relation Linemerge.linemerge r junction_lookup
  = Ok (Some (LineString west)) /\
  combined_properties r (LineString west) !! "combined_way_count"
  = Some (VNum 3).
Proof. split; vm_compute; reflexivity. Qed.

End AssemblerExamples.

(** ** Stage 10: projection failures *)

Section ProjectionFailure.

Import Simplify SpecWords.

Context {T : Type}.
Variable to_utm to_wgs84 : Coordinate -> exc Coordinate.
Variable line_simplify : T -> list Coordinate -> list Coordinate.

Lemma transform_geometry_raise transform g c e :
  c ∈ projected_coordinates g -> transform c = Raise e ->
  exists e', transform_geometry transform g = Raise e'.
Proof.
  destruct g as [p|coords|lines]; simpl.
  - by intros ?%elem_of_nil.
  - intros Hc He. destruct (exc_map_raise transform coords c e Hc He) as [e' ->].
    by eexists.
  - intros (line & Hc & Hl)%elem_of_concat He.
    destruct (exc_map_raise transform line c e Hc He) as [e' Hline].
    destruct (exc_map_raise (exc_map transform) lines line e' Hl Hline)
      as [e'' ->].
    by eexists.
Qed.

(** Nothing in stage 10 catches an exception either: with a
    transformer that does raise on a coordinate of a feature's
    [LineString] or [MultiLineString], [process_feature] raises, and so
    does the loop of [downsample_railways] over any batch that holds
    the feature. *)
Lemma raised_projection_error_propagates (feature : Feature)
    (tolerance_meters : T) (c : Coordinate) (e : string) :
  c ∈ projected_coordinates (geometry feature) ->
  to_utm c = Raise e ->
  (exists e',
     process_feature to_utm to_wgs84 line_simplify feature tolerance_meters
     = Raise e') /\
  (forall features, feature ∈ features ->
     exists e',
       downsample_railways to_utm to_wgs84 line_simplify
         features tolerance_meters = Raise e').
Proof.
  intros Hc He.
  assert (exists e',
            process_feature to_utm to_wgs84 line_simplify
              feature tolerance_meters = Raise e') as [e' Hp].
  { unfold process_feature, transform_coordinates.
    destruct (transform_geometry_raise to_utm _ c e Hc He) as [e' ->].
    by eexists. }
  split; [by eexists|].
  intros features Hin. unfold downsample_railways.
  by eapply exc_map_raise.
Qed.

(** A transformed line has one coordinate for each coordinate of the
    line, in the same order, each the transform of its own. *)
Lemma transform_geometry_pointwise transform coords g :
  transform_geometry transform (LineString coords) = Ok g ->
  exists coords',
    g = LineString coords' /\
    Forall2 (fun c c' => transform c = Ok c') coords coords'.
Proof.
  simpl. destruct (exc_map transform coords) as [coords'|e] eqn:Hm; [|done].
  intros [= <-]. exists coords'. split; [done|]. by apply exc_map_Forall2.
Qed.

End ProjectionFailure.

(** *** Transformers that do not raise *)


Section UncheckedProjection.

Import Simplify.

Context {T : Type}.
Variable fwd back : Coordinate -> Coordinate.
Variable line_simplify : T -> list Coordinate -> list Coordinate.




End UncheckedProjection.

Section ProjectionExamples.

Import Simplify SpecWords Fixtures.


End ProjectionExamples.

(** ** Stage 10: the simplifier *)

Section DouglasPeuckerFacts.

Import Simplify.

Context {M : Metric}.

Lemma leD_refl x : leD x x = true.
Proof. by destruct (leD_total x x). Qed.

Lemma leD_false_le x y : leD x y = false -> leD y x = true.
Proof. intros H. destruct (leD_total x y) as [H'|H']; congruence. Qed.

Lemma furthest_None a b mid : furthest a b mid = None <-> mid = [].
Proof.
  destruct mid as [|p mid]; simpl; [done|]. split; [|done].
  destruct (furthest a b mid) as [[[[l m] r] d]|]; [|done].
  by destruct (leD d (dist a b p)).
Qed.

(** [furthest] splits the interval at a point that is strictly further
    than every point before it and at least as far as every point
    after it. *)
Lemma furthest_Some a b mid l m r d :
  furthest a b mid = Some (l, m, r, d) ->
  mid = l ++ m :: r /\ d = dist a b m /\
  Forall (fun p => leD d (dist a b p) = false) l /\
  Forall (fun p => leD (dist a b p) d = true) r.
Proof.
  revert l m r d. induction mid as [|p mid IH]; intros l m r d; simpl; [done|].
  destruct (furthest a b mid) as [[[[l' m'] r'] d']|] eqn:Hf.
  - destruct (IH _ _ _ _ eq_refl) as (-> & -> & Hl & Hr).
    destruct (leD (dist a b m') (dist a b p)) eqn:Hle; intros [= <- <- <- <-].
    + repeat split; [constructor|]. apply Forall_app. split.
      * eapply Forall_impl; [exact Hl|]. intros q Hq. simpl in Hq.
        eapply leD_trans; [by apply leD_false_le|done].
      * constructor; [done|].
        eapply Forall_impl; [exact Hr|]. intros q Hq. simpl in Hq.
        by eapply leD_trans.
    + repeat split; [|done]. by constructor.
  - apply furthest_None in Hf as ->. intros [= <- <- <- <-].
    repeat split; constructor.
Qed.

Lemma furthest_split a b l m r :
  Forall (fun p => leD (dist a b m) (dist a b p) = false) l ->
  Forall (fun p => leD (dist a b p) (dist a b m) = true) r ->
  furthest a b (l ++ m :: r) = Some (l, m, r, dist a b m).
Proof.
  intros Hl Hr. induction Hl as [|p l Hp Hl IH]; simpl.
  - destruct (furthest a b r) as [[[[l' m'] r'] d']|] eqn:Hf.
    + apply furthest_Some in Hf as (-> & -> & _ & _).
      apply Forall_app in Hr as [_ Hr]. apply Forall_cons in Hr as [Hm _].
      by rewrite Hm.
    + by apply furthest_None in Hf as ->.
  - rewrite IH. by rewrite Hp.
Qed.

Lemma reduce_kept fuel tolerance a mid b :
  reduce fuel tolerance a mid b = a :: kept fuel tolerance a mid b ++ [b].
Proof.
  revert a mid b. induction fuel as [|fuel IH]; intros a mid b; simpl;
    destruct (furthest a b mid) as [[[[l m] r] d]|]; try done;
    destruct (leD d tolerance); try done.
  rewrite !IH. simpl. by rewrite <- !app_assoc.
Qed.

Lemma kept_Forall (P : Coordinate -> Prop) fuel tolerance a mid b :
  Forall P mid -> Forall P (kept fuel tolerance a mid b).
Proof.
  revert a mid b. induction fuel as [|fuel IH]; intros a mid b HP; simpl;
    destruct (furthest a b mid) as [[[[l m] r] d]|] eqn:Hf; try done;
    destruct (leD d tolerance); try done.
  apply furthest_Some in Hf as (-> & _ & _ & _).
  apply Forall_app in HP as [Hl Hr]. apply Forall_cons in Hr as [Hm Hr].
  apply Forall_app. split; [by apply IH|]. constructor; [done|by apply IH].
Qed.

Lemma kept_length fuel tolerance a mid b :
  (length (kept fuel tolerance a mid b) <= length mid)%nat.
Proof.
  revert a mid b. induction fuel as [|fuel IH]; intros a mid b; simpl;
    destruct (furthest a b mid) as [[[[l m] r] d]|] eqn:Hf; simpl; try lia;
    destruct (leD d tolerance); simpl; try lia.
  apply furthest_Some in Hf as (-> & _ & _ & _).
  rewrite !length_app. simpl.
  pose proof (IH a l m). pose proof (IH m r b). lia.
Qed.

(** Running the reduction on what it kept keeps all of it. *)
Lemma kept_idempotent fuel fuel' tolerance a mid b :
  (length mid <= fuel)%nat ->
  (length (kept fuel tolerance a mid b) <= fuel')%nat ->
  kept fuel' tolerance a (kept fuel tolerance a mid b) b
  = kept fuel tolerance a mid b.
Proof.
  revert fuel' a mid b.
  induction fuel as [|fuel IH]; intros fuel' a mid b Hfuel Hfuel'.
  - destruct mid; [|simpl in Hfuel; lia]. by destruct fuel'.
  - simpl in *.
    destruct (furthest a b mid) as [[[[l m] r] d]|] eqn:Hf;
      [|by destruct fuel'].
    destruct (leD d tolerance) eqn:Htol; [by destruct fuel'|].
    apply furthest_Some in Hf as (-> & -> & Hl & Hr).
    rewrite length_app in Hfuel. simpl in Hfuel.
    rewrite length_app in Hfuel'. simpl in Hfuel'.
    destruct fuel' as [|fuel']; [lia|]. simpl.
    rewrite furthest_split by (by apply kept_Forall).
    rewrite Htol. rewrite !IH by lia. done.
Qed.

Lemma douglas_peucker_shape tolerance a p q rest :
  douglas_peucker tolerance (a :: p :: q :: rest)
  = a :: kept (length (p :: q :: rest)) tolerance a
            (removelast (p :: q :: rest)) (List.last (p :: q :: rest) a)
       ++ [List.last (p :: q :: rest) a].
Proof. unfold douglas_peucker. by rewrite reduce_kept. Qed.

Lemma last_snoc_default {A} (xs : list A) (x d : A) :
  List.last (xs ++ [x]) d = x.
Proof. apply List.last_last. Qed.

Lemma list_last_is_last {A} (xs : list A) (x d : A) :
  last (x :: xs) = Some (List.last (x :: xs) d).
Proof.
  revert x. induction xs as [|y xs IH]; intros x; [done|].
  change (last (x :: y :: xs)) with (last (y :: xs)).
  change (List.last (x :: y :: xs) d) with (List.last (y :: xs) d).
  apply IH.
Qed.

Lemma douglas_peucker_endpoints tolerance seq :
  head (douglas_peucker tolerance seq) = head seq /\
  last (douglas_peucker tolerance seq) = last seq.
Proof.
  destruct seq as [|a [|p [|q rest]]]; try done.
  rewrite douglas_peucker_shape. split; [done|].
  rewrite app_comm_cons, last_snoc.
  change (last (a :: p :: q :: rest)) with (last (p :: q :: rest)).
  symmetry. apply list_last_is_last.
Qed.

Lemma douglas_peucker_nonempty tolerance seq :
  seq <> [] -> douglas_peucker tolerance seq <> [].
Proof.
  destruct seq as [|a [|p [|q rest]]]; try done.
  by rewrite douglas_peucker_shape.
Qed.

Lemma douglas_peucker_idempotent tolerance seq :
  douglas_peucker tolerance (douglas_peucker tolerance seq)
  = douglas_peucker tolerance seq.
Proof.
  destruct seq as [|a [|p [|q rest]]]; try done.
  rewrite douglas_peucker_shape.
  set (tl := p :: q :: rest). set (b := List.last tl a).
  assert (length (removelast tl) <= length tl)%nat as Hmid.
  { subst tl. rewrite removelast_firstn_len, length_take. lia. }
  set (K := kept (length tl) tolerance a (removelast tl) b) in *.
  destruct K as [|k K'] eqn:HK; [done|].
  assert (exists u v w, (k :: K') ++ [b] = u :: v :: w) as (u & v & w & Hsh).
  { destruct K'; simpl; eauto. }
  unfold douglas_peucker. rewrite Hsh, <- Hsh.
  rewrite removelast_last, last_snoc_default, reduce_kept.
  rewrite <- HK. subst K. rewrite kept_idempotent; [done|done|].
  rewrite length_app. simpl. lia.
Qed.

(** Over this engine the guards of [simplify_geometry] change nothing:
    it returns short lines as they are and never an empty line. *)
Lemma simplify_coords_engine tolerance coords :
  simplify_coords douglas_peucker tolerance coords
  = douglas_peucker tolerance coords.
Proof.
  unfold simplify_coords. case_bool_decide as Hlen.
  - by destruct coords as [|a [|p [|q rest]]]; simpl in Hlen; try lia.
  - assert (coords <> []) as Hne by (destruct coords; simpl in *; [lia|done]).
    pose proof (douglas_peucker_nonempty tolerance coords Hne).
    by destruct (douglas_peucker tolerance coords).
Qed.

Lemma simplify_coords_endpoints tolerance coords :
  head (simplify_coords douglas_peucker tolerance coords) = head coords /\
  last (simplify_coords douglas_peucker tolerance coords) = last coords.
Proof.
  rewrite simplify_coords_engine. apply douglas_peucker_endpoints.
Qed.

Lemma simplify_coords_idempotent tolerance coords :
  simplify_coords douglas_peucker tolerance
    (simplify_coords douglas_peucker tolerance coords)
  = simplify_coords douglas_peucker tolerance coords.
Proof.
  rewrite !simplify_coords_engine. apply douglas_peucker_idempotent.
Qed.

(** C6: [simplify] keeps the first and the last point of a
    [LineString], and of every line of a [MultiLineString], for every
    tolerance. *)
Theorem simplify_preserves_endpoints (tolerance : D) :
  (forall seq, exists seq',
     simplify (LineString seq) tolerance = LineString seq' /\
     head seq' = head seq /\ last seq' = last seq) /\
  (forall lines, exists lines',
     simplify (MultiLineString lines) tolerance = MultiLineString lines' /\
     Forall2 (fun seq seq' => head seq' = head seq /\ last seq' = last seq)
             lines lines').
Proof.
  split.
  - intros seq. eexists. split; [reflexivity|].
    apply simplify_coords_endpoints.
  - intros lines. eexists. split; [reflexivity|].
    apply Forall2_fmap_r, Forall_Forall2_diag, Forall_forall.
    intros seq _. apply simplify_coords_endpoints.
Qed.

(** C7: [simplify] is idempotent: simplifying its result again with
    the same tolerance changes nothing. *)
Theorem simplify_idempotent (g : Geometry) (tolerance : D) :
  simplify (simplify g tolerance) tolerance = simplify g tolerance.
Proof.
  destruct g as [c|seq|lines]; unfold simplify; simpl; [done| |].
  - by rewrite simplify_coords_idempotent.
  - f_equal. rewrite <- list_fmap_compose. apply list_fmap_ext.
    intros i seq _. simpl. apply simplify_coords_idempotent.
Qed.

End DouglasPeuckerFacts.

(** *** The planar metric of the fixtures *)

Section PlanarExamples.

Import Simplify Fixtures.

Lemma Qle_bool_total (x y : Q) : Qle_bool x y = true \/ Qle_bool y x = true.
Proof.
  rewrite !Qle_bool_iff.
  destruct (Qlt_le_dec x y) as [H|H]; [left; by apply Qlt_le_weak|by right].
Qed.

Lemma Qle_bool_trans (x y z : Q) :
  Qle_bool x y = true -> Qle_bool y z = true -> Qle_bool x z = true.
Proof. rewrite !Qle_bool_iff. apply Qle_trans. Qed.

#[local] Instance planar_metric : Metric :=
  {| D := Q; dist := sq_dist_to_line; leD := Qle_bool;
     leD_total := Qle_bool_total; leD_trans := Qle_bool_trans |}.

(** Scenario C: a straight line of five points collapses to its two
    endpoints under a positive tolerance. *)
Example straight_line_collapses :
  simplify (LineString [(0, 0); (1, 0); (2, 0); (3, 0); (4, 0)]) (1 # 4)%Q
  = LineString [(0, 0); (4, 0)].
Proof. vm_compute. reflexivity. Qed.

(** A zigzag that is further from the chord than the tolerance keeps
    its corners, and a second pass keeps them again. *)
Example zigzag_is_kept :
  simplify (LineString [(0, 0); (1, 5); (2, 0); (3, -3); (4, 0)]) (1 # 1)%Q
  = LineString [(0, 0); (1, 5); (3, -3); (4, 0)] /\
  simplify (LineString [(0, 0); (1, 5); (3, -3); (4, 0)]) (1 # 1)%Q
  = LineString [(0, 0); (1, 5); (3, -3); (4, 0)].
Proof. split; vm_compute; reflexivity. Qed.

End PlanarExamples.

(** ** The line merge: strands and connected components *)

Section LinemergeFacts.

Import Linemerge.

Implicit Types (p h t : Coordinate) (e m x y : list Coordinate)
  (es rest G : list (list Coordinate)).

Lemma degree_cons p e es :
  degree p (e :: es) = (end_count p e + degree p es)%nat.
Proof.
  unfold degree, end_count. rewrite !filter_cons.
  repeat case_decide; simpl; lia.
Qed.

Lemma degree_app p es es' :
  degree p (es ++ es') = (degree p es + degree p es')%nat.
Proof.
  induction es as [|e es IH]; [done|].
  simpl. rewrite !degree_cons, IH. lia.
Qed.

Lemma degree_perm p es es' : es ≡ₚ es' -> degree p es = degree p es'.
Proof.
  induction 1 as [|e es es' _ IH|e e' es|es1 es2 es3 _ IH1 _ IH2];
    rewrite ?degree_cons; lia || done.
Qed.

Lemma end_count_pos p e : (1 <= end_count p e)%nat <-> is_end p e.
Proof. unfold end_count, is_end. repeat case_decide; intuition lia. Qed.

Lemma end_count_reverse p e : end_count p (reverse e) = end_count p e.
Proof.
  unfold end_count. rewrite head_reverse, last_reverse.
  repeat case_decide; lia.
Qed.

Lemma degree_pos p es :
  (1 <= degree p es)%nat <-> exists e, e ∈ es /\ is_end p e.
Proof.
  induction es as [|e es IH].
  - split; [unfold degree; simpl; lia|]. by intros (e & ?%elem_of_nil & _).
  - rewrite degree_cons. split.
    + intros H. destruct (decide (is_end p e)) as [He|He].
      * exists e. split; [left|done].
      * rewrite <- end_count_pos in He.
        destruct IH as [(x & Hx & Hp) _]; [lia|].
        exists x. split; [by right|done].
    + intros (x & [->|Hx]%elem_of_cons & Hp).
      * apply end_count_pos in Hp. lia.
      * assert (1 <= degree p es)%nat by (apply IH; eauto). lia.
Qed.


Lemma take_match_None p es :
  take_match p es = None -> forall e, e ∈ es -> ~ is_end p e.
Proof.
  induction es as [|e es IH]; simpl; [by intros _ e ?%elem_of_nil|].
  repeat case_decide; try done.
  destruct (take_match p es) as [[m rest]|]; [done|].
  intros _ x [->|Hx]%elem_of_cons; [unfold is_end; tauto|by apply IH].
Qed.

(** A match is one of the unused ways with an end at [p], turned to
    start there. *)
Lemma take_match_Some p es m rest :
  take_match p es = Some (m, rest) ->
  exists e,
    es ≡ₚ e :: rest /\ head m = Some p /\
    forall q, end_count q e = end_count q m.
Proof.
  revert m rest. induction es as [|e es IH]; intros m rest; simpl; [done|].
  case_decide as Hh; [|case_decide as Hl].
  - intros [= <- <-]. by exists e.
  - intros [= <- <-]. exists e. split; [done|].
    split; [by rewrite head_reverse|].
    intros q. by rewrite end_count_reverse.
  - destruct (take_match p es) as [[m' rest']|]; [|done].
    intros [= <- <-]. destruct (IH _ _ eq_refl) as (x & Hp & Hm & Hq).
    exists x. split; [|done]. rewrite Hp. apply Permutation_swap.
Qed.

Lemma walk_inv_sym G h t : walk_inv G h t -> walk_inv G t h.
Proof.
  intros (Hc & Hh & Ht & Hp). repeat split; try done.
  intros p Hd. destruct (Hp p Hd) as [?|(? & ?)]; [by left|right].
  split; [done|tauto].
Qed.

Lemma walk_inv_start e h t :
  head e = Some h -> last e = Some t -> walk_inv [e] h t.
Proof.
  intros Hh Ht.
  assert (forall p, degree p [e]
                    = ((if decide (h = p) then 1 else 0)
                       + (if decide (t = p) then 1 else 0))%nat) as Hd.
  { intros p. rewrite degree_cons. unfold end_count, degree. simpl.
    rewrite Hh, Ht. repeat case_decide; simplify_eq; lia. }
  unfold walk_inv. split; [constructor|].
  split; [rewrite Hd, decide_True by done; lia|].
  split; [rewrite Hd, (decide_True (P := t = t)) by done; lia|].
  intros p. rewrite Hd.
  destruct (decide (h = p)) as [Hhp|Hhp], (decide (t = p)) as [Htp|Htp];
    intros ?; try lia.
  - right. split; [congruence|by left].
  - right. split; [congruence|by right].
Qed.

(** Chaining a way with one end at [t] and the other at [t'] moves the
    end of the chain from [t] to [t']. *)
Lemma walk_inv_extend G h t e t' :
  walk_inv G h t ->
  (forall p, end_count p e
             = ((if decide (t = p) then 1 else 0)
                + (if decide (t' = p) then 1 else 0))%nat) ->
  walk_inv (e :: G) h t'.
Proof.
  intros (Hc & Hh & Ht & Hp) He. unfold walk_inv.
  repeat split.
  - apply degree_pos in Ht as (x & Hx & Hend).
    apply (connected_add e G x); [done..|]. exists t. split; [|done].
    apply end_count_pos. rewrite He. rewrite decide_True by done. lia.
  - rewrite degree_cons. lia.
  - rewrite degree_cons, He. rewrite (decide_True (P := t' = t')) by done. lia.
  - intros p. rewrite degree_cons, He. intros Hd.
    destruct (decide (t = p)) as [<-|Hne].
    { left. lia. }
    destruct (decide (t' = p)) as [<-|Hne'].
    { destruct (decide (h = t')) as [<-|Hht]; [left; lia|].
      right. split; [done|by right]. }
    destruct (Hp p) as [?|(Hht & [->| ->])]; try lia; try done.
    right. split; [congruence|by left].
Qed.

Lemma head_chain_tail (chain m : list Coordinate) h :
  head chain = Some h -> head (chain ++ tail m) = Some h.
Proof. by destruct chain. Qed.

Lemma last_chain_tail (chain m : list Coordinate) t :
  last chain = Some t -> head m = Some t ->
  last (chain ++ tail m) = last m.
Proof.
  intros Hl Hm. destruct m as [|c [|c' m]]; simpl in *.
  - done.
  - rewrite app_nil_r. congruence.
  - rewrite last_app. change (last (c :: c' :: m)) with (last (c' :: m)).
    destruct (last (c' :: m)) eqn:Hl'; [done|]. by apply last_None in Hl'.
Qed.

Lemma ends_of_oriented m t t' :
  head m = Some t -> last m = Some t' ->
  forall p, end_count p m
            = ((if decide (t = p) then 1 else 0)
               + (if decide (t' = p) then 1 else 0))%nat.
Proof.
  intros Hh Hl p. unfold end_count. rewrite Hh, Hl.
  repeat case_decide; simplify_eq; lia.
Qed.

Lemma last_is_Some (m : list Coordinate) c :
  head m = Some c -> exists c', last m = Some c'.
Proof.
  destruct m as [|c0 m]; [done|]. intros _.
  destruct (last (c0 :: m)) as [c'|] eqn:Hl; [by eexists|].
  by apply last_None in Hl.
Qed.


Lemma head_prepend (chain m : list Coordinate) h :
  head m = Some h -> head chain = Some h ->
  head (reverse (tail m) ++ chain) = last m.
Proof.
  intros Hm Hc. destruct m as [|c [|c' m]]; simpl in *; [done|congruence|].
  change (last (c :: c' :: m)) with (last (c' :: m)).
  rewrite <- head_reverse.
  destruct (reverse (c' :: m)) as [|x l] eqn:Hr; [|done].
  apply (f_equal length) in Hr. by rewrite length_reverse in Hr.
Qed.

Lemma last_prepend (chain l : list Coordinate) t :
  last chain = Some t -> last (l ++ chain) = Some t.
Proof. intros Hl. by rewrite last_app, Hl. Qed.

(** The walk ends with a connected group of ways whose chain matches
    no unused way at either end. *)
Lemma walk_spec fuel chain rest G h t s rest' :
  (length rest <= fuel)%nat ->
  head chain = Some h -> last chain = Some t ->
  walk_inv G h t ->
  walk fuel chain rest = (s, rest') ->
  exists G' h' t',
    G ++ rest ≡ₚ G' ++ rest' /\ walk_inv G' h' t' /\
    forall y, y ∈ rest' -> ~ is_end h' y /\ ~ is_end t' y.
Proof.
  revert chain rest G h t.
  induction fuel as [|fuel IH]; intros chain rest G h t Hlen Hh Ht Hinv; simpl.
  - intros [= <- <-]. destruct rest; [|simpl in Hlen; lia].
    exists G, h, t. split; [done|]. split; [done|].
    by intros y ?%elem_of_nil.
  - rewrite Ht, Hh. simpl.
    destruct (take_match t rest) as [[m rest1]|] eqn:Htail.
    { apply take_match_Some in Htail as (e & Hperm & Hm & Hends).
      destruct (last_is_Some m t Hm) as [t' Ht'].
      intros Hwalk.
      destruct (IH (chain ++ tail m) rest1 (e :: G) h t') as
          (G' & h' & t'' & Hp' & Hinv' & Hclosed); try done.
      - apply Permutation_length in Hperm. simpl in Hperm. lia.
      - by apply head_chain_tail.
      - by rewrite (last_chain_tail chain m t).
      - apply (walk_inv_extend G h t e t'); [done|].
        intros p. rewrite Hends. by apply ends_of_oriented.
      - exists G', h', t''. split; [|done].
        rewrite <- Hp', Hperm. simpl. by rewrite Permutation_middle. }
    destruct (take_match h rest) as [[m rest1]|] eqn:Hhead.
    { apply take_match_Some in Hhead as (e & Hperm & Hm & Hends).
      destruct (last_is_Some m h Hm) as [h' Hh'].
      intros Hwalk.
      destruct (IH (reverse (tail m) ++ chain) rest1 (e :: G) h' t) as
          (G' & h'' & t'' & Hp' & Hinv' & Hclosed); try done.
      - apply Permutation_length in Hperm. simpl in Hperm. lia.
      - by rewrite (head_prepend chain m h).
      - by apply last_prepend.
      - apply walk_inv_sym, (walk_inv_extend G t h e h');
          [by apply walk_inv_sym|].
        intros p. rewrite Hends. by apply ends_of_oriented.
      - exists G', h'', t''. split; [|done].
        rewrite <- Hp', Hperm. simpl. by rewrite Permutation_middle. }
    intros [= <- <-]. exists G, h, t. split; [done|]. split; [done|].
    intros y Hy. split.
    + by apply (take_match_None h rest).
    + by apply (take_match_None t rest).
Qed.

(** Without a branch point, no unused way touches the group. *)
Lemma walk_closed G R h t :
  walk_inv G h t ->
  (forall y, y ∈ R -> ~ is_end h y /\ ~ is_end t y) ->
  no_branch (G ++ R) ->
  forall x y, x ∈ G -> y ∈ R -> ~ touch x y.
Proof.
  intros (_ & _ & _ & Hp) Hclosed Hnb x y Hx Hy (p & Hpx & Hpy).
  assert (1 <= degree p G)%nat as HdG by (apply degree_pos; eauto).
  assert (1 <= degree p R)%nat as HdR by (apply degree_pos; eauto).
  specialize (Hnb p). rewrite degree_app in Hnb.
  destruct (Hp p HdG) as [?|(_ & [->| ->])]; [lia| |];
    destruct (Hclosed y Hy); tauto.
Qed.

Lemma connected_nonempty G : connected G -> G <> [].
Proof.
  induction 1 as [e|e g x _ _ _ _|g g' Hperm _ IH]; try done.
  intros ->. by apply Permutation_nil_r in Hperm.
Qed.

Lemma touch_sym x y : touch x y -> touch y x.
Proof. intros (p & ? & ?). by exists p. Qed.

Lemma no_branch_perm es es' : es ≡ₚ es' -> no_branch es -> no_branch es'.
Proof. intros Hp Hnb p. rewrite <- (degree_perm p es es' Hp). apply Hnb. Qed.

Lemma no_branch_app_r es es' : no_branch (es ++ es') -> no_branch es'.
Proof. intros Hnb p. specialize (Hnb p). rewrite degree_app in Hnb. lia. Qed.

(** The strands of the walk are the connected components of the ways,
    one strand for each. *)
Lemma strands_components fuel es :
  (length es <= fuel)%nat ->
  Forall (fun e => e <> []) es ->
  no_branch es ->
  exists ws,
    length ws = length (strands fuel es) /\ components es ws.
Proof.
  revert es. induction fuel as [|fuel IH]; intros es Hlen Hne Hnb.
  - destruct es; [|simpl in Hlen; lia]. exists []. split; [done|].
    split; [done|]. split; [constructor|]. intros i j g1 g2 e1 e2 Hi.
    by rewrite lookup_nil in Hi.
  - destruct es as [|e rest].
    { exists []. split; [done|]. split; [done|]. split; [constructor|].
      intros i j g1 g2 e1 e2 Hi. by rewrite lookup_nil in Hi. }
    simpl. destruct (walk (length rest) e rest) as [s rest'] eqn:Hwalk.
    apply Forall_cons in Hne as [He Hne].
    destruct e as [|h e']; [done|].
    destruct (last_is_Some (h :: e') h eq_refl) as [t Ht].
    destruct (walk_spec (length rest) (h :: e') rest [h :: e'] h t s rest'
                (le_n _) eq_refl Ht
                (walk_inv_start (h :: e') h t eq_refl Ht) Hwalk)
      as (G & h' & t' & Hperm & Hinv & Hclosed).
    simpl in Hperm.
    assert (G <> []) as HG by (apply connected_nonempty, Hinv).
    assert (length G + length rest' = S (length rest))%nat as Hl.
    { apply Permutation_length in Hperm. rewrite length_app in Hperm.
      simpl in Hperm. lia. }
    assert (no_branch (G ++ rest')) as Hnb' by (by eapply no_branch_perm).
    destruct (IH rest') as (ws & Hws & Hperm' & Hconn & Hsep).
    { simpl in Hlen. destruct G; [done|]. simpl in Hl. lia. }
    { assert (Forall (fun e => e <> []) (G ++ rest')) as HF.
      { rewrite <- Hperm. by constructor. }
      by apply Forall_app in HF as [_ ?]. }
    { by eapply no_branch_app_r. }
    exists (G :: ws). split; [simpl; by rewrite Hws|].
    split; [simpl; by rewrite Hperm', Hperm|].
    split; [constructor; [apply Hinv|done]|].
    intros [|i] [|j] g1 g2 e1 e2 Hi Hj Hij H1 H2; simpl in Hi, Hj;
      [done| injection Hi as <- | injection Hj as <- |].
    + eapply (walk_closed G rest'); eauto.
      rewrite <- Hperm'. apply elem_of_concat. exists g2.
      split; [done|]. by eapply list_elem_of_lookup_2.
    + intros Ht'%touch_sym. revert Ht'.
      eapply (walk_closed G rest'); eauto.
      rewrite <- Hperm'. apply elem_of_concat. exists g1.
      split; [done|]. by eapply list_elem_of_lookup_2.
    + eapply (Hsep i j); eauto.
Qed.


Lemma injective_bound (f : nat -> nat) (n m : nat) :
  (forall i, (i < n)%nat -> (f i < m)%nat) ->
  (forall i i', (i < n)%nat -> (i' < n)%nat -> f i = f i' -> i = i') ->
  (n <= m)%nat.
Proof.
  intros Hran Hinj.
  assert (NoDup (f <$> seq 0 n)) as Hnd.
  { apply NoDup_fmap_2_strong; [|apply NoDup_seq].
    intros i i' Hi%elem_of_seq Hi'%elem_of_seq. apply Hinj; lia. }
  assert (f <$> seq 0 n ⊆+ seq 0 m) as Hsub.
  { apply NoDup_submseteq; [done|].
    intros j (i & -> & Hi%elem_of_seq)%list_elem_of_fmap.
    apply elem_of_seq. specialize (Hran i). lia. }
  apply submseteq_length in Hsub.
  by rewrite length_fmap, !length_seq in Hsub.
Qed.

Lemma touch_self x : x <> [] -> touch x x.
Proof. destruct x as [|c x]; [done|]. intros _. exists c. by split; left. Qed.

Lemma components_elem es ws x :
  components es ws -> x ∈ es ->
  exists j w, ws !! j = Some w /\ x ∈ w.
Proof.
  intros (Hperm & _ & _) Hx. rewrite <- Hperm in Hx.
  apply elem_of_concat in Hx as (w & Hxw & Hw).
  apply list_elem_of_lookup_1 in Hw as [j Hj]. by exists j, w.
Qed.

(** A connected group of ways lies within one component. *)
Lemma connected_in_component es ws g :
  components es ws -> connected g ->
  (forall x, x ∈ g -> x ∈ es) ->
  exists j w, ws !! j = Some w /\ forall x, x ∈ g -> x ∈ w.
Proof.
  intros Hcomp Hg. induction Hg as [e|e g x Hg IH Hx Ht|g g' Hperm Hg IH];
    intros Hin.
  - destruct (components_elem es ws e Hcomp) as (j & w & Hj & He).
    { apply Hin. left. }
    exists j, w. split; [done|]. by intros x ->%list_elem_of_singleton.
  - destruct IH as (j & w & Hj & Hw); [intros y Hy; apply Hin; by right|].
    destruct (components_elem es ws e Hcomp) as (j' & w' & Hj' & He).
    { apply Hin. left. }
    destruct (decide (j' = j)) as [->|Hne].
    + exists j, w. split; [done|]. rewrite Hj in Hj'. injection Hj' as <-.
      intros y [->|Hy]%elem_of_cons; auto.
    + destruct Hcomp as (_ & _ & Hsep).
      destruct (Hsep j' j w' w e x Hj' Hj Hne He (Hw x Hx) Ht).
  - destruct IH as (j & w & Hj & Hw).
    { intros x Hx. apply Hin. by rewrite <- Hperm. }
    exists j, w. split; [done|]. intros x Hx. apply Hw. by rewrite Hperm.
Qed.

Lemma group_index_spec ws x j w :
  ws !! j = Some w -> x ∈ w ->
  exists w', ws !! group_index ws x = Some w' /\ x ∈ w'.
Proof.
  intros Hj Hx. unfold group_index.
  destruct (list_find_elem_of (fun w => x ∈ w) ws w) as [[j' w'] Hfind];
    [by eapply list_elem_of_lookup_2|done|].
  rewrite Hfind. apply list_find_Some in Hfind as (Hj' & Hx' & _).
  by exists w'.
Qed.

Lemma components_group_elem es gs i g x :
  components es gs -> gs !! i = Some g -> x ∈ g -> x ∈ es.
Proof.
  intros (Hperm & _ & _) Hi Hx. rewrite <- Hperm.
  apply elem_of_concat. exists g. split; [done|].
  by eapply list_elem_of_lookup_2.
Qed.

Lemma components_le es gs ws :
  Forall (fun e => e <> []) es ->
  components es gs -> components es ws ->
  (length gs <= length ws)%nat.
Proof.
  intros Hne Hgs Hws.
  assert (forall i g, gs !! i = Some g ->
            exists x g' w, g = x :: g' /\
              ws !! group_image gs ws i = Some w /\ x ∈ w) as Himg.
  { intros i g Hi.
    assert (connected g) as Hg.
    { destruct Hgs as (_ & Hc & _).
      eapply Forall_forall; [exact Hc|]. by eapply list_elem_of_lookup_2. }
    destruct g as [|x g']; [by apply connected_nonempty in Hg|].
    assert (x ∈ es) as Hx.
    { eapply components_group_elem; [exact Hgs|exact Hi|left]. }
    destruct (components_elem es ws x Hws Hx) as (j & w & Hj & Hxw).
    destruct (group_index_spec ws x j w Hj Hxw) as (w' & Hw' & Hxw').
    exists x, g', w'. unfold group_image. rewrite Hi. done. }
  apply (injective_bound (group_image gs ws)).
  - intros i Hi. apply lookup_lt_is_Some_2 in Hi as [g Hg].
    destruct (Himg i g Hg) as (x & g' & w & _ & Hw & _).
    by eapply lookup_lt_Some.
  - intros i i' Hi Hi' Heq.
    apply lookup_lt_is_Some_2 in Hi as [g Hg].
    apply lookup_lt_is_Some_2 in Hi' as [g0 Hg0].
    destruct (Himg i g Hg) as (x & g' & w & -> & Hw & Hx).
    destruct (Himg i' g0 Hg0) as (x0 & g0' & w0 & -> & Hw0 & Hx0).
    rewrite <- Heq, Hw in Hw0. injection Hw0 as <-.
    assert (connected w) as Hcw.
    { destruct Hws as (_ & Hc & _).
      eapply Forall_forall; [exact Hc|]. by eapply list_elem_of_lookup_2. }
    destruct (connected_in_component es gs w Hgs Hcw) as (k & g & Hk & Hin).
    { intros y Hy. by eapply components_group_elem. }
    assert (forall j gj y, gs !! j = Some gj -> y ∈ gj -> y ∈ w -> j = k)
      as Hsame.
    { intros j gj y Hj Hy Hyw.
      destruct (decide (j = k)) as [|Hjk]; [done|].
      assert (y ∈ es) as Hyes by (by eapply components_group_elem).
      destruct Hgs as (_ & _ & Hsep).
      destruct (Hsep j k gj g y y Hj Hk Hjk Hy (Hin y Hyw)).
      apply touch_self.
      by eapply (proj1 (Forall_forall _ es) Hne). }
    rewrite (Hsame i (x :: g') x Hg (list_elem_of_here _ _) Hx).
    by rewrite (Hsame i' (x0 :: g0') x0 Hg0 (list_elem_of_here _ _) Hx0).
Qed.

(** The number of connected components of a list of ways is
    determined by the ways. *)
Lemma components_unique es gs ws :
  Forall (fun e => e <> []) es ->
  components es gs -> components es ws ->
  length gs = length ws.
Proof.
  intros Hne Hgs Hws.
  pose proof (components_le es gs ws Hne Hgs Hws).
  pose proof (components_le es ws gs Hne Hws Hgs). lia.
Qed.

End LinemergeFacts.

Section AssemblerComponents.

Import Relations Combine Linemerge Fixtures.

Lemma collect_line_strings_nonempty (way_lookup : gmap Z Feature) member_ids :
  Forall (fun e => e <> []) (collect_line_strings way_lookup member_ids).
Proof.
  apply Forall_forall. intros cs (i & _ & Hi)%list_elem_of_omap.
  apply member_line_Some in Hi as (_ & _ & _ & Hlen).
  intros ->. simpl in Hlen. lia.
Qed.

(** C1 (as amended): when the qualifying ways of a relation have no
    branch point, no coordinate being the end of more than two way
    ends, and form [k] connected components under exact endpoint
    matching, the assembler returns a [MultiLineString] of exactly [k]
    sequences for [k >= 2] and a single [LineString] for [k = 1]. *)
Theorem assemble_components_without_branch
    (relation : Feature) (way_lookup : gmap Z Feature)
    (gs : list (list (list Coordinate))) :
  let line_strings :=
    collect_line_strings way_lookup
      (get_ids "member_ids" (properties relation)) in
  components line_strings gs ->
  no_branch line_strings ->
  (length gs = 1%nat ->
   exists cs,
     combine_polylines_for_relation linemerge relation way_lookup
     = Ok (Some (LineString cs))) /\
  ((2 <= length gs)%nat ->
   exists ls,
     combine_polylines_for_relation linemerge relation way_lookup
     = Ok (Some (MultiLineString ls)) /\
     length ls = length gs).
Proof.
  intros line_strings Hcomp Hnb.
  pose proof (collect_line_strings_nonempty way_lookup
                (get_ids "member_ids" (properties relation))) as Hne.
  fold line_strings in Hne.
  destruct (strands_components (length line_strings) line_strings
              (le_n _) Hne Hnb) as (ws & Hlen & Hws).
  rewrite <- (components_unique line_strings gs ws Hne Hcomp Hws) in Hlen.
  unfold combine_polylines_for_relation. fold line_strings.
  destruct (get_ids "member_ids" (properties relation)) as [|i ids] eqn:Hids.
  { subst line_strings. simpl in Hlen. split; intros; lia. }
  destruct line_strings as [|l ls] eqn:Hls.
  { simpl in Hlen. split; intros; lia. }
  unfold linemerge.
  destruct (strands (length (l :: ls)) (l :: ls)) as [|s [|s' ss]];
    simpl in Hlen; split; intros Hk; try lia.
  - by eexists.
  - eexists. split; [done|]. simpl. lia.
Qed.

Ltac solve_ends :=
  repeat match goal with
         | H : _ ∈ _ :: _ |- _ => apply elem_of_cons in H as [->|H]
         | H : _ ∈ [] |- _ => by apply elem_of_nil in H
         | H : is_end _ _ |- _ => destruct H as [H|H]; simpl in H
         end; congruence.

Lemma junction_connected : connected [west; east; north].
Proof.
  apply (connected_add west [east; north] east); [|left|].
  - apply (connected_add east [north] north); [constructor|left|].
    exists (1, 0). split; by left.
  - exists (1, 0). split; [by right|by left].
Qed.

(** C1 (as stated) fails: three ways that meet in one point are one
    connected component, and the merge returns two sequences for
    them; with a fourth way far away there are two components and
    three sequences. *)
Lemma junction_is_one_component_two_strands :
  (collect_line_strings junction_lookup
     (get_ids "member_ids" (properties junction_relation))
   = [west; east; north] /\
   components [west; east; north] [[west; east; north]] /\
   combine_polylines_for_relation linemerge junction_relation junction_lookup
   = Ok (Some (MultiLineString [[(0, 0); (1, 0); (2, 0)]; north]))) /\
  (collect_line_strings junction_lookup
     (get_ids "member_ids" (properties junction_and_far_relation))
   = [west; east; north; far] /\
   components [west; east; north; far] [[west; east; north]; [far]] /\
   combine_polylines_for_relation linemerge
     junction_and_far_relation junction_lookup
   = Ok (Some (MultiLineString [[(0, 0); (1, 0); (2, 0)]; north; far]))).
Proof.
  split.
  - split; [vm_compute; reflexivity|]. split; [|vm_compute; reflexivity].
    split; [done|]. split.
    + repeat constructor. apply junction_connected.
    + intros [|i] [|j] g1 g2 e1 e2 Hi Hj Hij; try done;
        by rewrite ?lookup_nil in *.
  - split; [vm_compute; reflexivity|]. split; [|vm_compute; reflexivity].
    split; [done|]. split.
    + repeat constructor. apply junction_connected.
    + intros [|[|i]] [|[|j]] g1 g2 e1 e2 Hi Hj Hij H1 H2 (p & Hp1 & Hp2);
        simplify_eq/=; solve_ends.
Qed.

Lemma two_parts_components :
  components [west; east; far] [[west; east]; [far]].
Proof.
  split; [done|]. split.
  - repeat constructor.
    apply (connected_add west [east] east); [constructor|left|].
    exists (1, 0). split; [by right|by left].
  - intros [|[|i]] [|[|j]] g1 g2 e1 e2 Hi Hj Hij H1 H2 (p & Hp1 & Hp2);
      simplify_eq/=; solve_ends.
Qed.

Lemma two_parts_no_branch : no_branch [west; east; far].
Proof.
  intros p. rewrite !degree_cons. unfold degree, end_count. simpl.
  repeat case_decide; simplify_eq; lia.
Qed.

Lemma assemble_components_without_branch_witness :
  exists ls,
    combine_polylines_for_relation linemerge two_parts_relation junction_lookup
    = Ok (Some (MultiLineString ls)) /\
    length ls = 2%nat.
Proof.
  assert (collect_line_strings junction_lookup
            (get_ids "member_ids" (properties two_parts_relation))
          = [west; east; far]) as Hls by (vm_compute; reflexivity).
  refine (proj2 (assemble_components_without_branch two_parts_relation
                   junction_lookup [[west; east]; [far]] _ _) _).
  - rewrite Hls. apply two_parts_components.
  - rewrite Hls. apply two_parts_no_branch.
  - simpl. lia.
Defined.

End AssemblerComponents.

(** * Further properties of the pipeline *)

(** ** Stage 4: the coordinate table and the update of the ways *)

Section ResolverFacts.

Import Materialize Resolver.

Implicit Types (node_coords : gmap Z Coordinate) (features : list Feature)
  (nodes : list OsmNode) (required : gset Z).

Lemma materialize_properties node_coords feature :
  properties (materialize node_coords feature) = properties feature.
Proof.
  unfold materialize. rewrite update_feature_cases.
  by destruct (omap _ _) as [|c [|c' cs]].
Qed.

Lemma materialize_idempotent node_coords feature :
  materialize node_coords (materialize node_coords feature)
  = materialize node_coords feature.
Proof.
  unfold materialize at 1. rewrite update_feature_cases.
  rewrite materialize_properties.
  unfold materialize. rewrite update_feature_cases.
  by destruct (omap _ _) as [|c [|c' cs]].
Qed.

(** X1: Updating the ways a second time with the same table changes
    nothing. *)
Theorem update_way_coordinates_idempotent features node_coords :
  (update_way_coordinates
     (update_way_coordinates features node_coords).1 node_coords).1
  = (update_way_coordinates features node_coords).1.
Proof.
  rewrite !update_way_coordinates_features, <- list_fmap_compose.
  apply list_fmap_ext. intros i f _. apply materialize_idempotent.
Qed.

(** The update writes one feature for each feature read, in order,
    with the properties it had. *)
Theorem update_way_coordinates_keeps_properties features node_coords :
  Forall2 (fun feature updated => properties updated = properties feature)
          features (update_way_coordinates features node_coords).1.
Proof.
  rewrite update_way_coordinates_features.
  apply Forall2_fmap_r, Forall_Forall2_diag, Forall_forall.
  intros f _. apply materialize_properties.
Qed.

Lemma collect_missing node_coords node_ids acc missing node_id :
  node_id ∈ (foldl (collect_step node_coords) (acc, missing) node_ids).2 <->
  node_id ∈ missing \/
  (node_id ∈ node_ids /\ node_coords !! node_id = None).
Proof.
  revert acc missing.
  induction node_ids as [|i ids IH]; intros acc missing; simpl.
  - set_solver.
  - unfold collect_step at 2. simpl.
    destruct (node_coords !! i) as [c|] eqn:Hi; rewrite IH; simpl.
    + split; [intros [?|[? ?]]; [by left|right; split; [by right|done]]|].
      intros [?|[[->|?]%elem_of_cons ?]]; [by left|congruence|by right].
    + rewrite elem_of_union, elem_of_singleton. split.
      * intros [[->|?]|[? ?]]; [right; split; [left|done]|by left|].
        right. split; [by right|done].
      * intros [?|[[->|?]%elem_of_cons ?]]; [left; by right|left; by left|].
        by right.
Qed.

Lemma update_feature_missing node_coords feature missing node_id :
  node_id ∈ (update_feature node_coords feature missing).2 <->
  node_id ∈ missing \/
  (node_id ∈ get_ids "node_ids" (properties feature) /\
   node_coords !! node_id = None).
Proof.
  unfold update_feature.
  destruct (get_ids "node_ids" (properties feature)) as [|i ids] eqn:Hids.
  { simpl. split; [by left|]. by intros [?|[?%elem_of_nil ?]]. }
  unfold collect.
  pose proof (collect_missing node_coords (i :: ids) [] missing node_id) as H.
  destruct (foldl _ _ (i :: ids)) as [wc miss].
  simpl in H. by destruct wc as [|c [|c' cs]].
Qed.

(** X2: For ways whose [node_ids] is absent or a list of ids, the number
    the update returns is the number of distinct node ids that the ways
    refer to and the table does not have.  (A way whose [node_ids] a
    tag has replaced by a string is left out: the program would walk
    the characters of the string.) *)
Theorem update_way_coordinates_missing_count features node_coords :
  Forall (fun feature =>
            ids_are_listed "node_ids" (properties feature) = true)
         features ->
  (update_way_coordinates features node_coords).2
  = size (unresolved_ids node_coords features).
Proof.
  intros _. unfold update_way_coordinates.
  assert (forall acc miss node_id,
            node_id ∈ (foldl (fun st feature =>
                                let '(f', miss') :=
                                  update_feature node_coords feature st.2 in
                                (st.1 ++ [f'], miss'))
                             (acc, miss) features).2 <->
            node_id ∈ miss \/
            exists feature, feature ∈ features /\
              node_id ∈ get_ids "node_ids" (properties feature) /\
              node_coords !! node_id = None) as Hgen.
  { induction features as [|f fs IH]; intros acc miss node_id; simpl.
    - split; [by left|]. by intros [?|(? & ?%elem_of_nil & _)].
    - destruct (update_feature node_coords f miss) as [f' miss'] eqn:Hf.
      rewrite IH. simpl.
      pose proof (update_feature_missing node_coords f miss node_id) as Hm.
      rewrite Hf in Hm. simpl in Hm. rewrite Hm. split.
      + intros [[?|[? ?]]|(x & ? & ? & ?)]; [by left| |].
        * right. exists f. split; [left|done].
        * right. exists x. split; [by right|done].
      + intros [?|(x & [->|?]%elem_of_cons & ? & ?)].
        * left. by left.
        * left. by right.
        * right. by exists x. }
  destruct (foldl _ _ features) as [updated missing] eqn:Hfold.
  cbn [snd]. f_equal. apply set_eq. intros node_id.
  specialize (Hgen [] ∅ node_id). rewrite Hfold in Hgen. simpl in Hgen.
  rewrite Hgen. unfold unresolved_ids.
  rewrite elem_of_list_to_set, list_elem_of_filter, list_elem_of_bind.
  split.
  - intros [?%elem_of_empty|(f & ? & ? & ?)]; [done|].
    split; [done|]. by exists f.
  - intros (? & f & ? & ?). right. by exists f.
Qed.


Lemma last_valid_location_snoc nodes n node_id :
  last_valid_location (nodes ++ [n]) node_id
  = match (if decide (n_id n = node_id) then n_location n else None) with
    | Some c => Some c
    | None => last_valid_location nodes node_id
    end.
Proof.
  unfold last_valid_location. rewrite omap_app, last_app. csimpl.
  by destruct (if decide (n_id n = node_id) then n_location n else None).
Qed.

(** X3: The table holds a coordinate for exactly the required ids that
    occur in the stream with a valid location: the location of the
    last such node. *)
Theorem load_specific_node_coordinates_lookup nodes required node_id :
  load_specific_node_coordinates nodes required !! node_id
  = if decide (node_id ∈ required) then last_valid_location nodes node_id
    else None.
Proof.
  unfold load_specific_node_coordinates, apply_file.
  induction nodes as [|n nodes IH] using rev_ind.
  - simpl. rewrite lookup_empty. by case_decide.
  - rewrite foldl_snoc, last_valid_location_snoc. unfold node at 1.
    destruct (decide (n_id n ∈ required)) as [Hreq|Hreq].
    + destruct (n_location n) as [c|] eqn:Hloc; simpl.
      * destruct (decide (n_id n = node_id)) as [<-|Hne].
        -- rewrite lookup_insert_eq. by rewrite decide_True.
        -- by rewrite lookup_insert_ne.
      * rewrite IH. by repeat case_decide.
    + rewrite IH. case_decide; [|done].
      rewrite decide_False; [done|]. by intros <-.
Qed.

Lemma all_node_coordinates_lookup nodes node_id :
  all_node_coordinates nodes !! node_id = last_valid_location nodes node_id.
Proof.
  unfold all_node_coordinates.
  induction nodes as [|n nodes IH] using rev_ind; [done|].
  rewrite foldl_snoc, last_valid_location_snoc.
  destruct (n_location n) as [c|] eqn:Hloc.
  - destruct (decide (n_id n = node_id)) as [<-|Hne].
    + by rewrite lookup_insert_eq.
    + by rewrite lookup_insert_ne.
  - rewrite IH. by case_decide.
Qed.

(** X4: [found_count] counts the nodes of the stream that were stored, so
    it is at least the number of ids in the table. *)
Theorem found_count_counts_stream_nodes nodes required :
  (apply_file required nodes).2
  = length (filter (fun n => n_id n ∈ required /\ is_Some (n_location n))
                   nodes) /\
  (size (apply_file required nodes).1 <= (apply_file required nodes).2)%nat.
Proof.
  unfold apply_file.
  induction nodes as [|n nodes [IH1 IH2]] using rev_ind; [done|].
  rewrite foldl_snoc, filter_app, length_app, filter_cons, filter_nil.
  destruct (foldl (node required) (∅, O) nodes) as [table found].
  simpl in IH1, IH2. unfold node. simpl.
  destruct (decide (n_id n ∈ required)) as [Hreq|Hreq].
  - destruct (n_location n) as [c|] eqn:Hloc; simpl.
    + rewrite decide_True by eauto. simpl. split; [lia|].
      rewrite map_size_insert. destruct (table !! n_id n); simpl; lia.
    + rewrite decide_False by (by intros [_ [? [=]]]). simpl.
      split; [lia|done].
  - rewrite decide_False by tauto. simpl. split; [lia|done].
Qed.

Lemma collect_all_node_ids_elem ways_files node_id :
  node_id ∈ collect_all_node_ids ways_files <->
  exists features feature,
    Some features ∈ ways_files /\ feature ∈ features /\
    node_id ∈ get_ids "node_ids" (properties feature).
Proof.
  unfold collect_all_node_ids.
  induction ways_files as [|file files IH] using rev_ind.
  - simpl. split; [by intros ?%elem_of_empty|].
    by intros (? & ? & ?%elem_of_nil & _).
  - rewrite foldl_snoc. destruct file as [features|].
    + assert (forall (ids : gset Z),
                node_id ∈ foldl (fun ids feature =>
                                   list_to_set
                                     (get_ids "node_ids" (properties feature))
                                   ∪ ids) ids features <->
                node_id ∈ ids \/
                exists feature, feature ∈ features /\
                  node_id ∈ get_ids "node_ids" (properties feature)) as Hin.
      { induction features as [|f fs IHf] using rev_ind; intros ids.
        - simpl. split; [by left|]. by intros [?|(? & ?%elem_of_nil & _)].
        - rewrite foldl_snoc, elem_of_union, elem_of_list_to_set, IHf.
          setoid_rewrite elem_of_app.
          setoid_rewrite list_elem_of_singleton. naive_solver. }
      rewrite Hin, IH. setoid_rewrite elem_of_app.
      setoid_rewrite list_elem_of_singleton. naive_solver.
    + rewrite IH. setoid_rewrite elem_of_app.
      setoid_rewrite list_elem_of_singleton. naive_solver.
Qed.

Lemma materialize_ext node_coords node_coords' feature :
  (forall node_id,
     node_id ∈ get_ids "node_ids" (properties feature) ->
     node_coords !! node_id = node_coords' !! node_id) ->
  materialize node_coords feature = materialize node_coords' feature.
Proof.
  intros Hext. unfold materialize. rewrite !update_feature_cases.
  assert (omap (fun node_id => node_coords !! node_id)
               (get_ids "node_ids" (properties feature))
          = omap (fun node_id => node_coords' !! node_id)
                 (get_ids "node_ids" (properties feature))) as ->; [|done].
  apply list_omap_ext, Forall_Forall2_diag, Forall_forall. exact Hext.
Qed.

Lemma assign_coordinates_files nodes ways_files :
  (assign_coordinates nodes ways_files).1
  = materialize_files
      (load_specific_node_coordinates nodes (collect_all_node_ids ways_files))
      ways_files.
Proof.
  unfold assign_coordinates, materialize_files.
  generalize (load_specific_node_coordinates nodes
                (collect_all_node_ids ways_files)).
  intros node_coords.
  induction ways_files as [|file files IH] using rev_ind; [done|].
  rewrite foldl_snoc, fmap_app. simpl. rewrite <- IH.
  destruct file as [features|]; simpl.
  - pose proof (update_way_coordinates_features node_coords features) as Hu.
    destruct (update_way_coordinates features node_coords) as [updated k].
    simpl in *. by rewrite Hu.
  - done.
Qed.

(** X5: Loading only the coordinates of the node ids that the ways refer
    to loses nothing: every ways file is updated as it would be with
    the coordinates of all the nodes of the stream. *)
Theorem assign_coordinates_as_unfiltered nodes ways_files :
  (assign_coordinates nodes ways_files).1
  = materialize_files (all_node_coordinates nodes) ways_files.
Proof.
  rewrite assign_coordinates_files. unfold materialize_files.
  apply list_fmap_ext. intros i [features|] Hfile; [|done]. simpl. f_equal.
  apply list_fmap_ext. intros j feature Hfeature.
  apply materialize_ext. intros node_id Hid.
  rewrite load_specific_node_coordinates_lookup, all_node_coordinates_lookup.
  rewrite decide_True; [done|].
  apply collect_all_node_ids_elem. exists features, feature.
  split; [by eapply list_elem_of_lookup_2|].
  split; [by eapply list_elem_of_lookup_2|done].
Qed.

End ResolverFacts.

(** ** Stage 8: the way lookup and the whole pass *)

Section CombineMainFacts.

Import Relations Combine CombineMain.

Implicit Types (way_lookup : gmap Z Feature) (features ways : list Feature).

Lemma way_key_Ok props osm_id :
  way_key props = Ok osm_id <-> props !! "osm_id" = Some (VNum osm_id).
Proof.
  unfold way_key. destruct (props !! "osm_id") as [[n|s|ids|cs]|];
    split; try done; by intros [= ->].
Qed.

Lemma create_way_lookup_from_lookup way_lookup features way_lookup' osm_id :
  create_way_lookup_from way_lookup features = Ok way_lookup' ->
  way_lookup' !! osm_id
  = match last (filter (fun feature =>
                          properties feature !! "osm_id" = Some (VNum osm_id))
                       features) with
    | Some feature => Some feature
    | None => way_lookup !! osm_id
    end.
Proof.
  revert way_lookup.
  induction features as [|f fs IH]; intros way_lookup; simpl.
  - by intros [= <-].
  - destruct (way_key (properties f)) as [k|e] eqn:Hk; simpl; [|done].
    intros Hrest. rewrite (IH _ Hrest). apply way_key_Ok in Hk.
    rewrite filter_cons. case_decide as Hf.
    + rewrite Hk in Hf. injection Hf as ->.
      rewrite lookup_insert_eq.
      destruct (filter _ fs) as [|f' fs'] eqn:Hfs; simpl.
      * by destruct f.
      * rewrite last_cons. by destruct (last fs').
    + rewrite lookup_insert_ne; [done|]. intros ->. by rewrite Hk in Hf.
Qed.

(** X6: When the lookup is built, the entry of an id is the last way of
    the file with that [osm_id], so an entry's [osm_id] is its key. *)
Theorem create_way_lookup_last_wins ways way_lookup :
  create_way_lookup ways = Ok way_lookup ->
  forall osm_id,
    way_lookup !! osm_id
    = last (filter (fun feature =>
                      properties feature !! "osm_id" = Some (VNum osm_id))
                   ways).
Proof.
  intros Hok osm_id.
  rewrite (create_way_lookup_from_lookup ∅ ways way_lookup osm_id Hok).
  rewrite lookup_empty. by destruct (last _).
Qed.

(** X7: One way without an [osm_id] makes the building of the lookup
    fail. *)
Theorem create_way_lookup_needs_ids ways feature :
  feature ∈ ways ->
  properties feature !! "osm_id" = None ->
  exists e, create_way_lookup ways = Raise e.
Proof.
  unfold create_way_lookup. generalize (∅ : gmap Z Feature).
  intros way_lookup Hin Hnone. revert way_lookup.
  induction Hin as [x fs|x y fs Hin IH]; intros way_lookup; simpl.
  - unfold way_key. rewrite Hnone. by eexists.
  - destruct (way_key (properties y)) as [k|e]; simpl; [by apply IH|].
    by eexists.
Qed.


Section WithLinemerge.

Variable linemerge : list (list Coordinate) -> MergeOutcome.

Lemma relations_loop_features way_lookup relations st st' :
  relations_loop linemerge way_lookup st relations = Ok st' ->
  st'.1 = st.1 ++ omap (relation_output linemerge way_lookup) relations.
Proof.
  revert st. induction relations as [|r rs IH]; intros st; simpl.
  - intros [= <-]. by rewrite app_nil_r.
  - unfold relation_step, relation_output at 1.
    destruct (combine_polylines_for_relation linemerge r way_lookup)
      as [[g|]|e]; simpl; [| |done]; intros Hloop; rewrite (IH _ Hloop).
    + simpl. by rewrite <- app_assoc.
    + done.
Qed.

(** X8: The combined features come in the order of the relations, one for
    each relation that has a geometry. *)
Theorem process_railway_relations_in_order relations way_lookup
    combined_features used_way_ids :
  process_railway_relations linemerge relations way_lookup
  = Ok (combined_features, used_way_ids) ->
  combined_features = omap (relation_output linemerge way_lookup) relations.
Proof.
  intros Hrun. by apply relations_loop_features in Hrun.
Qed.

(** X20: The used way ids are exactly the keys of the lookup that occur in
    the [member_ids] of a relation that has a geometry, whatever the
    geometry of the way under that key. *)
Theorem process_railway_relations_used_ids relations way_lookup
    combined_features used_way_ids :
  process_railway_relations linemerge relations way_lookup
  = Ok (combined_features, used_way_ids) ->
  forall member_id,
    member_id ∈ used_way_ids <->
    is_Some (way_lookup !! member_id) /\
    exists relation g,
      relation ∈ relations /\
      combine_polylines_for_relation linemerge relation way_lookup
      = Ok (Some g) /\
      member_id ∈ get_ids "member_ids" (properties relation).
Proof.
  intros Hrun member_id.
  apply relations_loop_spec in Hrun as (_ & Hused & _). simpl in Hused.
  rewrite Hused. split; [|by right].
  by intros [?%elem_of_empty|?].
Qed.

Lemma combine_Raise relation way_lookup :
  (exists e,
     combine_polylines_for_relation linemerge relation way_lookup = Raise e)
  <->
  properties relation !! "osm_id" = None /\
  collect_line_strings way_lookup
    (get_ids "member_ids" (properties relation)) <> [] /\
  linemerge (collect_line_strings way_lookup
               (get_ids "member_ids" (properties relation))) = MergeRaised.
Proof.
  unfold combine_polylines_for_relation.
  destruct (get_ids "member_ids" (properties relation)) as [|i ids].
  { split; [by intros [? ?]|]. by intros (_ & ? & _). }
  destruct (collect_line_strings way_lookup (i :: ids)) as [|l ls].
  { split; [by intros [? ?]|]. by intros (_ & ? & _). }
  destruct (linemerge (l :: ls));
    try (split; [by intros [? ?]|by intros (_ & _ & ?)]).
  destruct (properties relation !! "osm_id").
  - split; [by intros [? ?]|by intros (? & _ & _)].
  - split; [done|]. intros _. by eexists.
Qed.

(** X9: The pass over the relations fails exactly when the merge raises
    for a relation that has qualifying ways and no [osm_id]. *)
Theorem process_railway_relations_fails_iff relations way_lookup :
  (exists e,
     process_railway_relations linemerge relations way_lookup = Raise e)
  <->
  exists relation,
    relation ∈ relations /\
    properties relation !! "osm_id" = None /\
    collect_line_strings way_lookup
      (get_ids "member_ids" (properties relation)) <> [] /\
    linemerge (collect_line_strings way_lookup
                 (get_ids "member_ids" (properties relation)))
    = MergeRaised.
Proof.
  unfold process_railway_relations.
  generalize (([], ∅) : list Feature * gset Z). intros st.
  revert st. induction relations as [|r rs IH]; intros st; simpl.
  - split; [by intros [? ?]|]. by intros (? & ?%elem_of_nil & _).
  - unfold relation_step.
    destruct (combine_polylines_for_relation linemerge r way_lookup)
      as [[g|]|e] eqn:Hr; simpl.
    + rewrite IH. split.
      * intros (x & ? & ?). exists x. split; [by right|done].
      * intros (x & [->|?]%elem_of_cons & Hx); [|by exists x].
        apply combine_Raise in Hx as [e He]. congruence.
    + rewrite IH. split.
      * intros (x & ? & ?). exists x. split; [by right|done].
      * intros (x & [->|?]%elem_of_cons & Hx); [|by exists x].
        apply combine_Raise in Hx as [e He]. congruence.
    + split; [|by eexists]. intros _. exists r. split; [left|].
      apply combine_Raise. by eexists.
Qed.

Lemma combine_geometry_is_lines relation way_lookup g :
  combine_polylines_for_relation linemerge relation way_lookup = Ok (Some g) ->
  geom_type g <> "Point".
Proof.
  unfold combine_polylines_for_relation.
  destruct (get_ids "member_ids" (properties relation)); [done|].
  destruct (collect_line_strings way_lookup _); [done|].
  destruct (linemerge _); try by intros [= <-].
  destruct (properties relation !! "osm_id"); [|done]. by intros [= <-].
Qed.

Lemma create_way_lookup_elem ways way_lookup osm_id way_data :
  create_way_lookup ways = Ok way_lookup ->
  way_lookup !! osm_id = Some way_data -> way_data ∈ ways.
Proof.
  intros Hok Hl. rewrite (create_way_lookup_last_wins ways way_lookup Hok) in Hl.
  apply last_Some_elem_of in Hl. by apply list_elem_of_filter in Hl as [_ ?].
Qed.

(** X10: Every feature of the output is a line geometry whose
    [geometry_type] names its geometry, marked with its source, and
    carries the other properties of the relation or way it comes
    from; a standalone feature has the geometry of its way. *)
Theorem output_features_are_tagged relations ways out :
  combine_railway_polylines linemerge relations ways = Ok out ->
  forall f, f ∈ out ->
    geom_type (geometry f) <> "Point" /\
    properties f !! "geometry_type" = Some (VStr (geom_type (geometry f))) /\
    ((properties f !! "source" = Some (VStr "relation") /\
      exists relation,
        relation ∈ relations /\ carries_properties relation f) \/
     (properties f !! "source" = Some (VStr "standalone_way") /\
      properties f !! "combined_way_count" = Some (VNum 1) /\
      exists way,
        way ∈ ways /\ geometry f = geometry way /\
        carries_properties way f)).
Proof.
  unfold combine_railway_polylines.
  destruct (create_way_lookup ways) as [way_lookup|e] eqn:Hwl; simpl; [|done].
  destruct (process_railway_relations linemerge relations way_lookup)
    as [[combined used]|e] eqn:Hrun; simpl; [|done].
  intros [= <-] f [Hf|Hf]%elem_of_app.
  - apply relations_loop_spec in Hrun as (Hfeat & _ & _).
    apply Hfeat in Hf as [Hf|(r & g & Hr & Hc & ->)];
      [by apply elem_of_nil in Hf|].
    simpl. split; [by eapply combine_geometry_is_lines|].
    unfold combined_properties.
    split; [rewrite lookup_insert_ne by done; by rewrite lookup_insert_eq|].
    left. split; [by rewrite lookup_insert_eq|].
    exists r. split; [done|]. intros key Hkey. simpl.
    unfold assembly_keys in Hkey.
    rewrite !lookup_insert_ne; [done|set_solver..].
  - apply standalone_elem in Hf as (i & wd & cs & Hwd & _ & Hg & _ & ->).
    simpl. split; [done|]. unfold standalone_properties.
    split; [rewrite lookup_insert_ne by done; by rewrite lookup_insert_eq|].
    right.
    split; [rewrite !lookup_insert_ne by done; by rewrite lookup_insert_eq|].
    split; [by rewrite lookup_insert_eq|].
    exists wd. split; [by eapply create_way_lookup_elem|].
    split; [done|]. intros key Hkey. simpl. unfold assembly_keys in Hkey.
    rewrite !lookup_insert_ne; [done|set_solver..].
Qed.

End WithLinemerge.

End CombineMainFacts.

(** ** Stage 10: what the pass keeps *)

Section DownsampleFacts.

Import Simplify SpecWords.

Context {T : Type}.
Variable to_utm to_wgs84 : Coordinate -> exc Coordinate.
Variable line_simplify : T -> list Coordinate -> list Coordinate.

Lemma simplify_coords_guards tolerance coords :
  ((length coords < 3)%nat ->
   simplify_coords line_simplify tolerance coords = coords) /\
  (coords <> [] -> simplify_coords line_simplify tolerance coords <> []) /\
  (simplify_coords line_simplify tolerance coords = coords \/
   simplify_coords line_simplify tolerance coords
   = line_simplify tolerance coords).
Proof.
  unfold simplify_coords. case_bool_decide as Hlen.
  - split; [done|]. split; [done|by left].
  - split; [lia|]. destruct (line_simplify tolerance coords) as [|c cs].
    + split; [done|by left].
    + split; [done|by right].
Qed.

(** X11: Whatever the simplification engine returns, [simplify_geometry]
    keeps the type of the geometry and the number of its lines, leaves
    a line of fewer than three points as it is, and never turns a line
    into an empty one: each line is either unchanged or the engine's
    result. *)
Theorem simplify_geometry_guards (g : Geometry) (tolerance : T) :
  geom_type (simplify_geometry line_simplify g tolerance) = geom_type g /\
  Forall2 (fun line line' =>
             ((length line < 3)%nat -> line' = line) /\
             (line <> [] -> line' <> []) /\
             (line' = line \/ line' = line_simplify tolerance line))
          (lines_of g)
          (lines_of (simplify_geometry line_simplify g tolerance)).
Proof.
  destruct g as [c|coords|lines]; simpl; (split; [done|]).
  - constructor.
  - constructor; [apply (simplify_coords_guards tolerance coords)|constructor].
  - apply Forall2_fmap_r, Forall_Forall2_diag, Forall_forall.
    intros line _. apply (simplify_coords_guards tolerance line).
Qed.

Lemma exc_map_length {A B} (f : A -> exc B) xs ys :
  exc_map f xs = Ok ys -> length ys = length xs.
Proof. intros H%exc_map_Forall2. symmetry. by eapply Forall2_length. Qed.


Lemma transform_geometry_shape transform g g' :
  transform_geometry transform g = Ok g' ->
  geom_type g' = geom_type g /\
  length (lines_of g') = length (lines_of g).
Proof.
  destruct g as [c|coords|lines]; simpl.
  - by intros [= <-].
  - destruct (exc_map transform coords); simpl; [|done]. by intros [= <-].
  - destruct (exc_map (exc_map transform) lines) as [lines'|] eqn:Hm;
      simpl; [|done].
    intros [= <-]. split; [done|]. simpl. by eapply exc_map_length.
Qed.


Lemma process_feature_shape feature tolerance feature' :
  process_feature to_utm to_wgs84 line_simplify feature tolerance
  = Ok feature' ->
  properties feature' = properties feature /\
  geom_type (geometry feature') = geom_type (geometry feature) /\
  length (lines_of (geometry feature'))
  = length (lines_of (geometry feature)).
Proof.
  unfold process_feature, transform_coordinates, transform_coordinates_back.
  destruct (transform_geometry to_utm (geometry feature)) as [utm|] eqn:Hu;
    simpl; [|done].
  destruct (transform_geometry to_wgs84 _) as [back|] eqn:Hb; simpl; [|done].
  intros [= <-]. simpl. split; [done|].
  apply transform_geometry_shape in Hu as [Hu1 Hu2].
  apply transform_geometry_shape in Hb as [Hb1 Hb2].
  destruct (simplify_geometry_guards utm tolerance) as [Hs1 Hs2].
  apply Forall2_length in Hs2.
  split; congruence.
Qed.

(** X12: When the pass succeeds it writes one feature for each feature
    read, in order, with the same properties, the same type of
    geometry and the same number of lines. *)
Theorem downsample_railways_keeps_features features tolerance out :
  downsample_railways to_utm to_wgs84 line_simplify features tolerance
  = Ok out ->
  Forall2 (fun feature feature' =>
             properties feature' = properties feature /\
             geom_type (geometry feature') = geom_type (geometry feature) /\
             length (lines_of (geometry feature'))
             = length (lines_of (geometry feature)))
          features out.
Proof.
  intros Hok%exc_map_Forall2.
  eapply Forall2_impl; [exact Hok|].
  intros f f' Hf. exact (process_feature_shape f tolerance f' Hf).
Qed.


End DownsampleFacts.

(** ** Stage 7: the relation records *)

Section RelationRecordFacts.

Import Relations RailwayFilter.

Lemma tally_bump key k counts :
  tally k (bump key counts)
  = if decide (k = key) then S (tally k counts) else tally k counts.
Proof.
  induction counts as [|[k' n] counts IH]; simpl.
  - repeat case_decide; congruence.
  - destruct (decide (k' = key)) as [->|Hne]; simpl.
    + repeat case_decide; congruence.
    + rewrite IH. repeat case_decide; congruence.
Qed.

Lemma tally_foldl_bump {A} (code : A -> string) (xs : list A) k :
  tally k (foldl (fun c x => bump (code x) c) [] xs)
  = length (filter (fun x => code x = k) xs).
Proof.
  induction xs as [|x xs IH] using rev_ind; [done|].
  rewrite foldl_snoc, tally_bump, IH, filter_app, length_app.
  rewrite filter_cons, filter_nil.
  destruct (decide (k = code x)) as [->|Hne].
  - rewrite decide_True by done. simpl. lia.
  - rewrite decide_False by congruence. simpl. lia.
Qed.

Lemma type_code_inj t t' : type_code t = type_code t' -> t = t'.
Proof. by destruct t, t'. Qed.

(** X14: The tallies that a relation record carries are right: under each
    type code the number of members of that type, under each role the
    number of members with that role; and [member_ids] lists the
    members in order. *)
Theorem member_summary_counts (osm_id : Z) (osm_type : string)
    (tags : list (string * string)) (members : list Member) :
  exists member_types member_roles,
    create_feature_properties osm_id osm_type tags members !! "member_types"
    = Some (VCounts member_types) /\
    create_feature_properties osm_id osm_type tags members !! "member_roles"
    = Some (VCounts member_roles) /\
    create_feature_properties osm_id osm_type tags members !! "member_ids"
    = Some (VIds (m_ref <$> members)) /\
    (forall t, tally (type_code t) member_types
               = length (filter (fun m => m_type m = t) members)) /\
    (forall role, tally role member_roles
                  = length (filter (fun m => m_role m = role) members)).
Proof.
  eexists _, _. unfold create_feature_properties. cbv zeta.
  split; [rewrite !lookup_insert_ne by done; by rewrite lookup_insert_eq|].
  split; [rewrite lookup_insert_ne by done; by rewrite lookup_insert_eq|].
  split; [by rewrite lookup_insert_eq|]. split.
  - intros t.
    rewrite (tally_foldl_bump (fun m => type_code (m_type m)) members).
    f_equal. apply list_filter_iff. intros m. split; [|by intros ->].
    apply type_code_inj.
  - intros role. apply (tally_foldl_bump m_role members).
Qed.

Lemma tags_lookup (base : gmap string value) (tags : list (string * string))
    key :
  foldl (fun props tag => <[tag.1 := VStr tag.2]> props) base tags !! key
  = match last (filter (fun tag => tag.1 = key) tags) with
    | Some tag => Some (VStr tag.2)
    | None => base !! key
    end.
Proof.
  induction tags as [|tag tags IH] using rev_ind; [done|].
  rewrite foldl_snoc, filter_app, filter_cons, filter_nil.
  destruct (decide (tag.1 = key)) as [<-|Hne].
  - by rewrite lookup_insert_eq, last_snoc.
  - rewrite lookup_insert_ne by done. by rewrite app_nil_r.
Qed.

(** X15: Every tag becomes a property, the last one of a key winning, and
    a tag named [osm_id], [osm_type] or [member_count] replaces the
    relation's own value; only the member summary cannot be replaced
    by a tag. *)
Theorem tags_override_base_properties (osm_id : Z) (osm_type : string)
    (tags : list (string * string)) (members : list Member) (key : string) :
  key ∉ summary_keys ->
  create_feature_properties osm_id osm_type tags members !! key
  = match last (filter (fun tag => tag.1 = key) tags) with
    | Some tag => Some (VStr tag.2)
    | None => base_properties osm_id osm_type members !! key
    end.
Proof.
  intros Hkey. unfold summary_keys in Hkey.
  unfold create_feature_properties. cbv zeta.
  rewrite !lookup_insert_ne by set_solver.
  apply tags_lookup.
Qed.

End RelationRecordFacts.

Section RailwayFilterFacts.

Import Relations RailwayFilter.

Variable lower : string -> string.

Lemma is_railway_loop_existsb tags rest :
  is_railway_loop lower tags rest
  = (existsb (is_type_tag lower) rest
     && existsb (railway_related lower) tags)
    || existsb (is_direct_tag lower) rest.
Proof.
  induction rest as [|tag rest IH]; simpl; [done|].
  rewrite IH.
  destruct (is_type_tag lower tag), (existsb (railway_related lower) tags),
    (is_direct_tag lower tag), (existsb (is_type_tag lower) rest),
    (existsb (is_direct_tag lower) rest); done.
Qed.

Lemma railway_related_cases tag :
  railway_related lower tag = true ->
  is_rail_route_tag lower tag = true \/ is_direct_tag lower tag = true.
Proof.
  unfold railway_related, is_rail_route_tag, is_direct_tag. cbv zeta.
  destruct (String.eqb (lower tag.1) "route" && contains "rail" (lower tag.2));
    [by left|].
  destruct (String.eqb (lower tag.1) "railway"); [by right|].
  destruct (String.eqb (lower tag.1) "public_transport"
            && contains "rail" (lower tag.2)); [by right|].
  destruct (contains "railway" (lower tag.1)); [by right|].
  destruct (contains "railway" (lower tag.2)); [by right|].
  destruct (contains "railroad" (lower tag.1)); [by right|].
  destruct (contains "railroad" (lower tag.2)); [by right|].
  done.
Qed.

Lemma rail_route_is_related tag :
  is_rail_route_tag lower tag = true -> railway_related lower tag = true.
Proof.
  unfold railway_related, is_rail_route_tag. cbv zeta. by intros ->.
Qed.

(** X16: A relation is taken for a railway relation exactly when one of its
    tags passes the direct tests, or it has a type tag of the list
    together with a route tag that mentions rail. *)
Theorem is_railway_relation_tests (tags : list (string * string)) :
  is_railway_relation lower tags
  = existsb (is_direct_tag lower) tags
    || (existsb (is_type_tag lower) tags
        && existsb (is_rail_route_tag lower) tags).
Proof.
  unfold is_railway_relation. rewrite is_railway_loop_existsb.
  apply Bool.eq_iff_eq_true.
  rewrite !orb_true_iff, !andb_true_iff, !existsb_exists. split.
  - intros [[Ht (tag & Hin & [Hr|Hd]%railway_related_cases)]|Hd].
    + right. split; [done|]. by exists tag.
    + left. by exists tag.
    + by left.
  - intros [Hd|[Ht (tag & Hin & Hr%rail_route_is_related)]].
    + by right.
    + left. split; [done|]. by exists tag.
Qed.

Lemma existsb_Permutation {A} (f : A -> bool) (xs ys : list A) :
  xs ≡ₚ ys -> existsb f xs = existsb f ys.
Proof.
  intros Hp. apply Bool.eq_iff_eq_true. rewrite !existsb_exists.
  split; intros (x & Hx & Hf); exists x; split; try done;
    apply list_elem_of_In; apply list_elem_of_In in Hx;
    [by rewrite <- Hp|by rewrite Hp].
Qed.

(** X17: The order of the tags does not matter to the selection. *)
Theorem is_railway_relation_order_free (tags tags' : list (string * string)) :
  tags ≡ₚ tags' ->
  is_railway_relation lower tags = is_railway_relation lower tags'.
Proof.
  intros Hp. rewrite !is_railway_relation_tests.
  by rewrite !(existsb_Permutation _ tags tags' Hp).
Qed.

(** X18: After the stream, [processed_count] is the number of relations
    read, [railway_relations] holds the record of each relation that
    has tags and passes the selection, in stream order, and
    [railway_relations_count] is their number. *)
Theorem extract_relations_result (relations : list OsmRelation) :
  extract_relations lower relations
  = (length relations,
     length (filter (fun r => is_kept lower r = true) relations),
     (fun r => relation_feature (r_id r) (r_tags r) (r_members r))
       <$> filter (fun r => is_kept lower r = true) relations).
Proof.
  unfold extract_relations.
  induction relations as [|r rs IH] using rev_ind; [done|].
  rewrite foldl_snoc, IH. unfold relation_handler.
  change (bool_decide (0 < length (r_tags r))%nat
          && is_railway_relation lower (r_tags r)) with (is_kept lower r).
  rewrite filter_app, filter_cons, filter_nil, fmap_app, !length_app.
  destruct (is_kept lower r) eqn:Hkept.
  - rewrite decide_True by done. simpl. by rewrite !Nat.add_1_r.
  - rewrite decide_False by done. simpl.
    by rewrite !app_nil_r, Nat.add_1_r, Nat.add_0_r.
Qed.

End RailwayFilterFacts.

(** ** Stage 3: splitting *)

Section SplitFacts.

Import Split.

Lemma features_per_file_covers (total num_files : nat) :
  (0 < num_files)%nat ->
  (total <= num_files * features_per_file total num_files)%nat.
Proof.
  intros Hn. unfold features_per_file.
  pose proof (Nat.mul_succ_div_gt (total + num_files - 1) num_files) as H.
  assert (num_files <> 0)%nat as Hne by lia. specialize (H Hne).
  nia.
Qed.

Lemma features_per_file_pos (total num_files : nat) :
  (0 < num_files)%nat -> (0 < total)%nat ->
  (0 < features_per_file total num_files)%nat.
Proof.
  intros Hn Ht. pose proof (features_per_file_covers total num_files Hn).
  destruct (features_per_file total num_files); lia.
Qed.

Lemma split_loop_concat (features : list Feature) per k n :
  (length features <= (k + n) * per)%nat ->
  concat (split_loop features per (seq k n)) = drop (k * per) features.
Proof.
  revert k. induction n as [|n IH]; intros k Hcover; simpl.
  - rewrite drop_ge; [done|]. rewrite Nat.add_0_r in Hcover. lia.
  - case_decide as Hstart.
    + by rewrite drop_ge.
    + simpl. rewrite IH by lia.
      destruct (decide ((k + 1) * per <= length features)%nat) as [Hle|Hgt].
      * rewrite Nat.min_l by lia.
        replace ((k + 1) * per - k * per)%nat with per by lia.
        replace (S k * per)%nat with (k * per + per)%nat by lia.
        rewrite <- drop_drop. apply take_drop.
      * rewrite Nat.min_r by lia.
        rewrite (drop_ge features (S k * per)) by lia.
        rewrite app_nil_r. apply take_ge. rewrite length_drop. lia.
Qed.

Lemma split_loop_chunks (features : list Feature) per indices :
  (0 < per)%nat ->
  (length (split_loop features per indices) <= length indices)%nat /\
  Forall (fun chunk => chunk <> [] /\ (length chunk <= per)%nat)
         (split_loop features per indices).
Proof.
  intros Hper. induction indices as [|i indices [IH1 IH2]]; simpl.
  - split; [done|constructor].
  - case_decide as Hstart; simpl; [split; [lia|constructor]|].
    split; [lia|]. constructor; [|done].
    split.
    + intros Hnil. apply (f_equal length) in Hnil.
      rewrite length_take, length_drop in Hnil. simpl in Hnil. lia.
    + rewrite length_take, length_drop. lia.
Qed.

(** X19: The files written hold all the features, each once and in order:
    joined together they are the input.  There are at most
    [num_files] of them, none is empty, and none has more than the
    rounded-up share of the features. *)
Theorem split_geojson_partitions (features : list Feature)
    (num_files : nat) (chunks : list (list Feature)) :
  split_geojson features num_files = Ok chunks ->
  concat chunks = features /\
  (length chunks <= num_files)%nat /\
  Forall (fun chunk =>
            chunk <> [] /\
            (length chunk
             <= features_per_file (length features) num_files)%nat)
         chunks.
Proof.
  intros Hok.
  assert (0 < num_files)%nat as Hpos.
  { destruct num_files; [done|lia]. }
  assert (chunks
          = split_loop features
              (features_per_file (length features) num_files)
              (seq 0 num_files)) as ->.
  { unfold split_geojson in Hok. destruct num_files; [lia|].
    by injection Hok. }
  clear Hok.
  split.
  - rewrite split_loop_concat; [by rewrite Nat.mul_0_l, drop_0|].
    apply features_per_file_covers. lia.
  - destruct features as [|f fs] eqn:Hfs.
    { replace (split_loop [] _ _) with (@nil (list Feature));
        [split; [simpl; lia|constructor]|].
      destruct num_files; [lia|]. simpl.
      first [done | case_decide; [done|simpl in *; lia]]. }
    rewrite <- Hfs.
    destruct (split_loop_chunks features
                (features_per_file (length features) num_files)
                (seq 0 num_files)) as [H1 H2].
    { apply features_per_file_pos; [done|]. subst features. simpl. lia. }
    rewrite length_seq in H1. done.
Qed.

End SplitFacts.

(** ** Instances of the further properties *)

Section MoreExamples.

Import Relations Combine CombineMain Simplify SpecWords RailwayFilter Split.
Import Fixtures MoreFixtures.

Lemma update_way_coordinates_missing_count_witness :
  Forall (fun feature =>
            ids_are_listed "node_ids" (properties feature) = true)
         shared_node_ways /\
  (Materialize.update_way_coordinates shared_node_ways one_node_table).2
  = size (Resolver.unresolved_ids one_node_table shared_node_ways) /\
  size (Resolver.unresolved_ids one_node_table shared_node_ways) = 3%nat.
Proof.
  assert (Forall (fun feature =>
                    ids_are_listed "node_ids" (properties feature) = true)
                 shared_node_ways) as Hlisted.
  { unfold shared_node_ways.
    repeat (apply Forall_cons_2; [vm_compute; reflexivity|]).
    apply Forall_nil_2. }
  split; [exact Hlisted|]. split.
  - apply (update_way_coordinates_missing_count
             shared_node_ways one_node_table Hlisted).
  - vm_compute. reflexivity.
Defined.

Lemma create_way_lookup_last_wins_witness :
  (<[1 := second_copy]> ∅ : gmap Z Feature) !! 1
  = last (filter (fun feature =>
                    properties feature !! "osm_id" = Some (VNum 1))
                 [first_copy; second_copy]).
Proof.
  apply (create_way_lookup_last_wins [first_copy; second_copy]
           (<[1 := second_copy]> ∅)).
  vm_compute. reflexivity.
Defined.

Lemma create_way_lookup_needs_ids_witness :
  exists e, create_way_lookup [first_copy; nameless_way] = Raise e.
Proof.
  apply (create_way_lookup_needs_ids [first_copy; nameless_way] nameless_way).
  - right. left.
  - reflexivity.
Defined.

Lemma process_railway_relations_in_order_witness :
  junction_combined
  = omap (relation_output Linemerge.linemerge junction_lookup)
         [junction_relation].
Proof.
  apply (process_railway_relations_in_order Linemerge.linemerge
           [junction_relation] junction_lookup junction_combined {[1; 2; 3]}).
  vm_compute. reflexivity.
Defined.

Lemma process_railway_relations_used_ids_witness :
  2 ∈ ({[1; 2; 3]} : gset Z) <->
  is_Some (junction_lookup !! 2) /\
  exists relation g,
    relation ∈ [junction_relation] /\
    combine_polylines_for_relation Linemerge.linemerge relation junction_lookup
    = Ok (Some g) /\
    2 ∈ get_ids "member_ids" (properties relation).
Proof.
  apply (process_railway_relations_used_ids Linemerge.linemerge
           [junction_relation] junction_lookup junction_combined {[1; 2; 3]}).
  vm_compute. reflexivity.
Defined.

Lemma junction_pass :
  combine_railway_polylines Linemerge.linemerge
    [junction_relation] junction_ways
  = Ok (junction_combined ++ [far_standalone]).
Proof. vm_compute. reflexivity. Qed.

Lemma output_features_are_tagged_witness :
  geom_type (geometry far_standalone) <> "Point" /\
  properties far_standalone !! "geometry_type"
  = Some (VStr (geom_type (geometry far_standalone))) /\
  ((properties far_standalone !! "source" = Some (VStr "relation") /\
    exists relation,
      relation ∈ [junction_relation] /\
      carries_properties relation far_standalone) \/
   (properties far_standalone !! "source" = Some (VStr "standalone_way") /\
    properties far_standalone !! "combined_way_count" = Some (VNum 1) /\
    exists way,
      way ∈ junction_ways /\ geometry far_standalone = geometry way /\
      carries_properties way far_standalone)).
Proof.
  apply (output_features_are_tagged Linemerge.linemerge
           [junction_relation] junction_ways
           (junction_combined ++ [far_standalone]) junction_pass).
  apply elem_of_app. right. left.
Defined.

Lemma downsample_railways_keeps_features_witness :
  Forall2 (fun feature feature' =>
             properties feature' = properties feature /\
             geom_type (geometry feature') = geom_type (geometry feature) /\
             length (lines_of (geometry feature'))
             = length (lines_of (geometry feature)))
          [inside_line] [inside_line].
Proof.
  apply (downsample_railways_keeps_features shift_east shift_west
           (fun (_ : Z) cs => cs) [inside_line] 500 [inside_line]).
  vm_compute. reflexivity.
Defined.


Lemma tags_override_base_properties_witness :
  create_feature_properties 7 "relation" [("osm_id", "seven")] [] !! "osm_id"
  = Some (VStr "seven").
Proof.
  rewrite (tags_override_base_properties 7 "relation"
             [("osm_id", "seven")] [] "osm_id"); [reflexivity|].
  unfold summary_keys. set_solver.
Defined.

Lemma is_railway_relation_order_free_witness :
  is_railway_relation (fun s => s) route_tags
  = is_railway_relation (fun s => s) route_tags_swapped.
Proof.
  apply (is_railway_relation_order_free (fun s => s)
           route_tags route_tags_swapped).
  apply Permutation_swap.
Defined.

(** A light rail route is selected through its type and route tags
    alone. *)
Example light_rail_route_is_selected :
  is_railway_relation (fun s => s) route_tags = true /\
  is_railway_relation (fun s => s) [("type", "route"); ("route", "bus")]
  = false.
Proof. split; vm_compute; reflexivity. Qed.

Lemma split_geojson_partitions_witness :
  concat [take 3 five_ways; drop 3 five_ways] = five_ways /\
  (length [take 3 five_ways; drop 3 five_ways] <= 2)%nat /\
  Forall (fun chunk =>
            chunk <> [] /\
            (length chunk <= features_per_file (length five_ways) 2)%nat)
         [take 3 five_ways; drop 3 five_ways].
Proof.
  apply (split_geojson_partitions five_ways 2).
  vm_compute. reflexivity.
Defined.

End MoreExamples.
